(** * Chunkatron: the chunk download scheduler of jQueryPlugins/chunkatron.js

    A shallow embedding of [$.fn.chunkatron] and a verification of its
    scheduling, retry and give-up behaviour.

    The plugin is single threaded and event driven: the constructor runs to
    completion, and afterwards the only code that runs is a callback of an
    [$.ajax] request that has finished.  The embedding therefore has
    - the plugin object ([state]): the fields the source keeps on [this],
      together with the requests that are in flight and the trace of what the
      plugin did to the outside world (requests issued, hooks fired);
    - the functions of the source, as state transformers that may throw
      ([outcome]);
    - the event loop ([step]): one input is the answer of the network to one
      of the requests in flight.

    Identifiers and the numeric settings are integers.  The chunk list is
    an array whose entries are chunks (arrays of identifiers) or null.  A
    hook of the caller is a black box that returns: its call is a line of
    the trace, which records the argument it got and what it could read off
    the plugin at that moment.  The [console.log] lines under [verbose] are
    left out.  The queue [this.chunks] is the array [this.settings.chunks]
    itself; the settings are not read through that field once [start] has
    run, so the embedding keeps the queue in the plugin object only. *)

From Stdlib Require Import ZArith String List Lia.
From stdpp Require Import gmap strings list.
Import ListNotations.

Local Open Scope Z_scope.

(** ** Values *)

(** A chunk is a sequence of identifiers. *)
Abbreviation chunk := (list Z).

(** An entry of the chunk list: a chunk, or [None] for an entry that is null
    or undefined. *)
Abbreviation entry := (option chunk).

(** The JavaScript values that are handed to the hooks: response payloads,
    error details and chunks. *)
Inductive jsval :=
| JUndefined
| JNull
| JBool (b : bool)
| JNum (n : Z)
| JStr (s : string)
| JArr (a : chunk)
| JObj (ref : nat).

(** ToBoolean, as used by [if (params)]. *)
Definition truthy (v : jsval) : bool :=
  match v with
  | JUndefined | JNull => false
  | JBool b => b
  | JNum n => negb (n =? 0)
  | JStr s => negb (String.eqb s EmptyString)
  | JArr _ | JObj _ => true
  end.

(** The value of a hook setting: [null] (or left out), a function, or
    anything else. *)
Inductive hook := HNull | HFunction | HOther.

Definition is_null (h : hook) : bool :=
  match h with HNull => true | _ => false end.

(** The settings a hook is read from. *)
Inductive hook_name :=
| OnChunkSuccess | OnChunkError | OnChunkGiveUp | OnChunkComplete | OnFinished.

Definition hook_name_eqb (a b : hook_name) : bool :=
  match a, b with
  | OnChunkSuccess, OnChunkSuccess | OnChunkError, OnChunkError
  | OnChunkGiveUp, OnChunkGiveUp | OnChunkComplete, OnChunkComplete
  | OnFinished, OnFinished => true
  | _, _ => false
  end.

(** ** Settings *)

Record settings := {
  url : option string;
  onChunkComplete : hook;
  settings_chunks : option (list entry);
  chunksUrl : option string;
  onComplete : hook;
  onChunkSuccess : hook;
  onChunkError : hook;
  onChunkGiveUp : hook;
  onFinished : hook;
  verbose : bool;
  dataType : string;
  maxDownloadRetries : Z;
  concurrentDownloadsMax : Z
}.

Definition defaultOptions : settings := {|
  url := None; onChunkComplete := HNull;
  settings_chunks := None; chunksUrl := None;
  onComplete := HNull; onChunkSuccess := HNull; onChunkError := HNull;
  onChunkGiveUp := HNull; onFinished := HNull;
  verbose := false; dataType := "json";
  maxDownloadRetries := 3; concurrentDownloadsMax := 10
|}.

(** What the caller passes.  [None] stands for a property that is left out
    (or undefined), which [$.extend] skips, so that the default stays.  The
    defaults of the hooks, of the two URLs and of the chunk list are null, so
    for these a null override ([HNull], [None]) gives the same settings as
    none at all.  For the four other settings an override, when there is
    one, is a value of the type of the default. *)
Record overrides := {
  o_url : option string;
  o_onChunkComplete : hook;
  o_chunks : option (list entry);
  o_chunksUrl : option string;
  o_onComplete : hook;
  o_onChunkSuccess : hook;
  o_onChunkError : hook;
  o_onChunkGiveUp : hook;
  o_onFinished : hook;
  o_verbose : option bool;
  o_dataType : option string;
  o_maxDownloadRetries : option Z;
  o_concurrentDownloadsMax : option Z
}.

Definition or_default {A} (o : option A) (d : A) : A :=
  match o with Some a => a | None => d end.

Definition or_hook (o d : hook) : hook :=
  match o with HNull => d | _ => o end.

Definition or_option {A} (o d : option A) : option A :=
  match o with Some _ => o | None => d end.

(** [$.extend(defaultOptions, overrides)]. *)
Definition extend (d : settings) (o : overrides) : settings := {|
  url := or_option (o_url o) (url d);
  onChunkComplete := or_hook (o_onChunkComplete o) (onChunkComplete d);
  settings_chunks := or_option (o_chunks o) (settings_chunks d);
  chunksUrl := or_option (o_chunksUrl o) (chunksUrl d);
  onComplete := or_hook (o_onComplete o) (onComplete d);
  onChunkSuccess := or_hook (o_onChunkSuccess o) (onChunkSuccess d);
  onChunkError := or_hook (o_onChunkError o) (onChunkError d);
  onChunkGiveUp := or_hook (o_onChunkGiveUp o) (onChunkGiveUp d);
  onFinished := or_hook (o_onFinished o) (onFinished d);
  verbose := or_default (o_verbose o) (verbose d);
  dataType := or_default (o_dataType o) (dataType d);
  maxDownloadRetries := or_default (o_maxDownloadRetries o) (maxDownloadRetries d);
  concurrentDownloadsMax :=
    or_default (o_concurrentDownloadsMax o) (concurrentDownloadsMax d)
|}.

(** ** The plugin object and its trace *)

(** What a hook can read off the plugin while it runs. *)
Record view := {
  seen_chunks : list entry;
  seen_concurrentDownloads : Z;
  seen_chunkFailures : gmap (option Z) Z
}.

Inductive event :=
| Get (u : string) (dt : string)
| Post (u : option string) (dt : string) (c : chunk)
| Fired (h : hook_name) (arg : option jsval) (v : view).

(** [chunkFailures] is keyed by [currentChunk[0]], which is undefined
    ([None]) for an empty chunk.  [pending] holds the chunks of the POST
    requests in flight, oldest first; [fetching] says that the GET of the
    chunk list is in flight. *)
Record state := {
  concurrentDownloads : Z;
  chunkFailures : gmap (option Z) Z;
  chunks : list entry;
  pending : list chunk;
  fetching : bool;
  trace : list event
}.

Definition view_of (s : state) : view := {|
  seen_chunks := chunks s;
  seen_concurrentDownloads := concurrentDownloads s;
  seen_chunkFailures := chunkFailures s
|}.

Definition set_concurrentDownloads (n : Z) (s : state) : state := {|
  concurrentDownloads := n; chunkFailures := chunkFailures s;
  chunks := chunks s; pending := pending s; fetching := fetching s;
  trace := trace s |}.

Definition set_chunkFailures (m : gmap (option Z) Z) (s : state) : state := {|
  concurrentDownloads := concurrentDownloads s; chunkFailures := m;
  chunks := chunks s; pending := pending s; fetching := fetching s;
  trace := trace s |}.

Definition set_chunks (q : list entry) (s : state) : state := {|
  concurrentDownloads := concurrentDownloads s;
  chunkFailures := chunkFailures s;
  chunks := q; pending := pending s; fetching := fetching s;
  trace := trace s |}.

Definition set_pending (p : list chunk) (s : state) : state := {|
  concurrentDownloads := concurrentDownloads s;
  chunkFailures := chunkFailures s;
  chunks := chunks s; pending := p; fetching := fetching s;
  trace := trace s |}.

Definition set_fetching (b : bool) (s : state) : state := {|
  concurrentDownloads := concurrentDownloads s;
  chunkFailures := chunkFailures s;
  chunks := chunks s; pending := pending s; fetching := b;
  trace := trace s |}.

Definition emit (e : event) (s : state) : state := {|
  concurrentDownloads := concurrentDownloads s;
  chunkFailures := chunkFailures s;
  chunks := chunks s; pending := pending s; fetching := fetching s;
  trace := trace s ++ [e] |}.

(** ** Code that may throw *)

Inductive outcome :=
| Done (s : state)
| Thrown (msg : string) (s : state).

Definition state_of (o : outcome) : state :=
  match o with Done s | Thrown _ s => s end.

Definition and_then (o : outcome) (k : state -> outcome) : outcome :=
  match o with
  | Done s => k s
  | Thrown msg s => Thrown msg s
  end.

Notation "o >>> k" := (and_then o k) (at level 61, left associativity).

(** ** The functions of the plugin *)

Definition requiredOptions : list string := ["url"; "onChunkComplete"]%string.

(** The own properties of [this.settings], in the order [for ... in] meets
    them: the order in which [defaultOptions] lists them. *)
Definition setting_names : list string :=
  ["url"; "onChunkComplete"; "chunks"; "chunksUrl"; "onComplete";
   "onChunkSuccess"; "onChunkError"; "onChunkGiveUp"; "onFinished";
   "verbose"; "dataType"; "maxDownloadRetries"; "concurrentDownloadsMax"]%string.

Definition is_none {A} (o : option A) : bool :=
  match o with None => true | Some _ => false end.

(** [this.settings[setting] == null]. *)
Definition setting_is_null (cfg : settings) (setting : string) : bool :=
  if String.eqb setting "url" then is_none (url cfg)
  else if String.eqb setting "onChunkComplete" then is_null (onChunkComplete cfg)
  else if String.eqb setting "chunks" then is_none (settings_chunks cfg)
  else if String.eqb setting "chunksUrl" then is_none (chunksUrl cfg)
  else if String.eqb setting "onComplete" then is_null (onComplete cfg)
  else if String.eqb setting "onChunkSuccess" then is_null (onChunkSuccess cfg)
  else if String.eqb setting "onChunkError" then is_null (onChunkError cfg)
  else if String.eqb setting "onChunkGiveUp" then is_null (onChunkGiveUp cfg)
  else if String.eqb setting "onFinished" then is_null (onFinished cfg)
  else false.

Definition inArray (x : string) (l : list string) : bool :=
  existsb (String.eqb x) l.

(** [verifySettings]: the message of the error it throws, if any. *)
Definition verifySettings (cfg : settings) : option string :=
  match find (fun setting => inArray setting requiredOptions
                             && setting_is_null cfg setting) setting_names with
  | Some setting =>
      Some ("Chunkatron requires a value for the '" ++ setting ++ "' setting")%string
  | None =>
      if is_none (settings_chunks cfg) && is_none (chunksUrl cfg)
      then Some "Either the chunks or the chunksUrl must be provided"%string
      else None
  end.

(** [callback]: fire a hook.  [h] names the setting [cb] was read from and
    only labels the trace. *)
Definition callback (h : hook_name) (cb : hook) (params : jsval) (s : state)
  : outcome :=
  match cb with
  | HFunction =>
      Done (emit (Fired h (if truthy params then Some params else None)
                          (view_of s)) s)
  | HNull => Done s
  | HOther =>
      Thrown "The callback must be a function (or null if you don't want one)" s
  end.

(** [this.chunkFailures[currentChunk[0]] > this.settings.maxDownloadRetries];
    a missing entry is undefined, and undefined > n is false. *)
Definition given_up (cfg : settings) (s : state) (c : chunk) : bool :=
  match chunkFailures s !! head c with
  | Some n => maxDownloadRetries cfg <? n
  | None => false
  end.

(** The [$.ajax] POST of a chunk: the request is in flight from now on. *)
Definition ajax_post (cfg : settings) (c : chunk) (s : state) : state :=
  emit (Post (url cfg) (dataType cfg) c) (set_pending (pending s ++ [c]) s).

(** [downloadChunk], by recursion on the queue [q = this.chunks]: the only
    recursive call comes after a [shift].  [shift] gives undefined on an
    empty queue, and [currentChunk == null] holds for undefined as for an
    entry that is null: in both cases [onFinished] fires and the call
    returns, in the second with the entry taken off the queue. *)
Fixpoint downloadChunk_from (cfg : settings) (q : list entry) (s : state)
  : outcome :=
  if concurrentDownloadsMax cfg <=? concurrentDownloads s then Done s
  else
    match q with
    | [] => callback OnFinished (onFinished cfg) JUndefined s
    | None :: q' =>
        callback OnFinished (onFinished cfg) JUndefined (set_chunks q' s)
    | Some currentChunk :: q' =>
        let s := set_chunks q' s in
        if given_up cfg s currentChunk then
          callback OnChunkGiveUp (onChunkGiveUp cfg) (JArr currentChunk) s >>>
          downloadChunk_from cfg q'
        else
          Done (ajax_post cfg currentChunk
                  (set_concurrentDownloads (concurrentDownloads s + 1) s))
    end.

Definition downloadChunk (cfg : settings) (s : state) : outcome :=
  downloadChunk_from cfg (chunks s) s.

(** The callbacks handed to [$.ajax] for the request of [currentChunk]. *)
Definition ajax_success (cfg : settings) (data : jsval) (s : state) : outcome :=
  callback OnChunkSuccess (onChunkSuccess cfg) data s.

Definition ajax_error (cfg : settings) (currentChunk : chunk) (error : jsval)
    (s : state) : outcome :=
  let chunkIdentifier := head currentChunk in
  let s :=
    set_chunkFailures
      (<[chunkIdentifier :=
           match chunkFailures s !! chunkIdentifier with
           | None => 1
           | Some n => n + 1
           end]> (chunkFailures s)) s in
  let s := set_chunks (chunks s ++ [Some currentChunk]) s in
  callback OnChunkError (onChunkError cfg) error s.

Definition ajax_complete (cfg : settings) (s : state) : outcome :=
  let s := set_concurrentDownloads (concurrentDownloads s - 1) s in
  callback OnChunkComplete (onChunkComplete cfg) JUndefined s >>>
  downloadChunk cfg.

(** [for (var i = 0; i < n; i++) body()]. *)
Fixpoint times (n : nat) (body : state -> outcome) (s : state) : outcome :=
  match n with
  | O => Done s
  | S n' => body s >>> times n' body
  end.

(** [start], with [cs] the value of [this.settings.chunks].  A null [cs]
    makes the first [downloadChunk] throw at [this.chunks.shift()];
    [verifySettings] lets no such call happen. *)
Definition start (cfg : settings) (cs : option (list entry)) (s : state)
  : outcome :=
  match cs with
  | Some cs =>
      times (Z.to_nat (concurrentDownloadsMax cfg)) (downloadChunk cfg)
            (set_chunks cs s)
  | None =>
      if 0 <? concurrentDownloadsMax cfg
      then Thrown "TypeError: this.chunks is null" s
      else Done s
  end.

Definition initial : state := {|
  concurrentDownloads := 0; chunkFailures := ∅; chunks := [];
  pending := []; fetching := false; trace := []
|}.

(** [$.fn.chunkatron]: the constructor. *)
Definition chunkatron (o : overrides) : outcome :=
  let cfg := extend defaultOptions o in
  match verifySettings cfg with
  | Some msg => Thrown msg initial
  | None =>
      match settings_chunks cfg, chunksUrl cfg with
      | None, Some u =>
          Done (emit (Get u (dataType cfg)) (set_fetching true initial))
      | cs, _ => start cfg cs initial
      end
  end.

(** ** The event loop *)

Inductive response :=
| Success (data : jsval)
| Error (error : jsval).

(** What the network can do: answer the [i]-th request in flight, or answer
    the GET of the chunk list (with a sequence of entries, or with an
    error). *)
Inductive input :=
| Response (i : nat) (r : response)
| ChunksLoaded (data : list entry)
| ChunksFailed.

(** One turn of the event loop; [None] when there is no such request.  jQuery
    runs [success] or [error] first and [complete] after it, and an exception
    of the first ends the turn. *)
Definition step (cfg : settings) (inp : input) (s : state) : option outcome :=
  match inp with
  | Response i r =>
      match pending s !! i with
      | Some currentChunk =>
          let s := set_pending (delete i (pending s)) s in
          Some (match r with
                | Success data => ajax_success cfg data s
                | Error error => ajax_error cfg currentChunk error s
                end >>> ajax_complete cfg)
      | None => None
      end
  | ChunksLoaded data =>
      if fetching s then Some (start cfg (Some data) (set_fetching false s))
      else None
  | ChunksFailed =>
      if fetching s then
        Some (Thrown
                ("We were unable to download the chunks from the url provided: "
                 ++ or_default (chunksUrl cfg) "")%string
                (set_fetching false s))
      else None
  end.

(** A run of the event loop.  An uncaught exception ends a turn, not the
    page: the plugin object stays as the turn left it. *)
Fixpoint run (cfg : settings) (inps : list input) (s : state) : option state :=
  match inps with
  | [] => Some s
  | inp :: inps' =>
      match step cfg inp s with
      | Some out => run cfg inps' (state_of out)
      | None => None
      end
  end.

(** The states the plugin object goes through for the overrides [o]. *)
Inductive reachable (o : overrides) : state -> Prop :=
| reachable_constructed : reachable o (state_of (chunkatron o))
| reachable_step s inp out :
    reachable o s ->
    step (extend defaultOptions o) inp s = Some out ->
    reachable o (state_of out).

(** ** Reading a trace *)

Definition is_fired (h : hook_name) (e : event) : bool :=
  match e with Fired h' _ _ => hook_name_eqb h h' | _ => false end.

Definition is_post (c : chunk) (e : event) : bool :=
  match e with Post _ _ c' => bool_decide (c = c') | _ => false end.

Definition is_get (e : event) : bool :=
  match e with Get _ _ => true | _ => false end.

Definition count (p : event -> bool) (t : list event) : nat :=
  length (List.filter p t).

(** No overrides at all. *)
Definition no_overrides : overrides := {|
  o_url := None; o_onChunkComplete := HNull; o_chunks := None;
  o_chunksUrl := None; o_onComplete := HNull; o_onChunkSuccess := HNull;
  o_onChunkError := HNull; o_onChunkGiveUp := HNull; o_onFinished := HNull;
  o_verbose := None; o_dataType := None; o_maxDownloadRetries := None;
  o_concurrentDownloadsMax := None |}.

(** The overrides of the scenarios: every hook a function, the chunks
    supplied. *)
Definition scenario (cs : list chunk) (retries cap : option Z) : overrides := {|
  o_url := Some "/report"%string; o_onChunkComplete := HFunction;
  o_chunks := Some (Some <$> cs); o_chunksUrl := None;
  o_onComplete := HNull; o_onChunkSuccess := HFunction;
  o_onChunkError := HFunction; o_onChunkGiveUp := HFunction;
  o_onFinished := HFunction;
  o_verbose := None; o_dataType := None; o_maxDownloadRetries := retries;
  o_concurrentDownloadsMax := cap |}.

(** A trace without the arguments and the views: what was requested and which
    hook fired, with the chunk where there is one. *)
Definition labels (t : list event) : list (string * chunk) :=
  map (fun e => match e with
                | Get _ _ => ("GET"%string, [])
                | Post _ _ c => ("POST"%string, c)
                | Fired OnChunkSuccess _ _ => ("onChunkSuccess"%string, [])
                | Fired OnChunkError _ _ => ("onChunkError"%string, [])
                | Fired OnChunkGiveUp (Some (JArr c)) _ => ("onChunkGiveUp"%string, c)
                | Fired OnChunkGiveUp _ _ => ("onChunkGiveUp"%string, [])
                | Fired OnChunkComplete _ _ => ("onChunkComplete"%string, [])
                | Fired OnFinished _ _ => ("onFinished"%string, [])
                end) t.

(** ** The vocabulary of the claims *)

(** What every hook must have seen when it ran: a counter within its
    bounds. *)
Definition hook_view_ok (cfg : settings) (e : event) : Prop :=
  match e with
  | Fired h _ v =>
      0 <= seen_concurrentDownloads v <= Z.max 0 (concurrentDownloadsMax cfg)
  | _ => True
  end.

(** The counter covers the requests in flight, with [k] to spare, and stays
    under the cap; every hook so far has seen what it should.  Between two
    turns of the event loop [k] is 0; inside the callbacks of a request that
    has come back and is not yet counted off, [k] is 1. *)
Definition inv (cfg : settings) (k : Z) (s : state) : Prop :=
  (Z.of_nat (length (pending s)) + k <= concurrentDownloads s
   <= Z.max 0 (concurrentDownloadsMax cfg)) /\
  Forall (hook_view_ok cfg) (trace s).

(** No GET of the chunk list is in flight, and the trace has property [T]. *)
Definition settled (T : list event -> Prop) (s : state) : Prop :=
  fetching s = false /\ T (trace s).

Definition hooks_typed (cfg : settings) : Prop :=
  onChunkSuccess cfg <> HOther /\ onChunkError cfg <> HOther /\
  onChunkGiveUp cfg <> HOther /\ onChunkComplete cfg <> HOther /\
  onFinished cfg <> HOther.

Definition counter_in_bounds (cfg : settings) (n : Z) : Prop :=
  0 <= n <= concurrentDownloadsMax cfg.

Definition negative_cap : overrides := scenario [[1]] None (Some (-1)).

Definition finished_saw_empty_queue (e : event) : Prop :=
  match e with
  | Fired OnFinished _ v => seen_chunks v = []
  | _ => True
  end.

(** The chunk list [[1], null, [2]], every hook a function. *)
Definition with_null_entry (cap : Z) : overrides := {|
  o_url := Some "/report"%string; o_onChunkComplete := HFunction;
  o_chunks := Some [Some [1]; None; Some [2]]; o_chunksUrl := None;
  o_onComplete := HNull; o_onChunkSuccess := HFunction;
  o_onChunkError := HFunction; o_onChunkGiveUp := HFunction;
  o_onFinished := HFunction;
  o_verbose := None; o_dataType := None; o_maxDownloadRetries := None;
  o_concurrentDownloadsMax := Some cap |}.

(** A configuration with both chunk sources. *)
Definition both_sources : overrides := {|
  o_url := Some "/report"%string; o_onChunkComplete := HFunction;
  o_chunks := Some [Some [1]; Some [2]]; o_chunksUrl := Some "/chunks"%string;
  o_onComplete := HNull; o_onChunkSuccess := HFunction;
  o_onChunkError := HFunction; o_onChunkGiveUp := HFunction;
  o_onFinished := HFunction;
  o_verbose := None; o_dataType := None; o_maxDownloadRetries := None;
  o_concurrentDownloadsMax := None |}.

Definition no_get (t : list event) : Prop := Forall (fun e => is_get e = false) t.

(** The chunks among the entries [q], in their order. *)
Definition chunks_of (q : list entry) : list chunk := omap id q.

(** The chunks at the front of the queue [q] that [downloadChunk] drops, one
    after the other, because their counter is over the ceiling. *)
Fixpoint abandoned (cfg : settings) (s : state) (q : list entry) : list chunk :=
  match q with
  | Some c :: q' => if given_up cfg s c then c :: abandoned cfg s q' else []
  | _ => []
  end.

(** The chunks that [onChunkGiveUp] was called with, in the order of the
    calls. *)
Definition given_up_chunks (t : list event) : list chunk :=
  flat_map (fun e => match e with
                     | Fired OnChunkGiveUp (Some (JArr c)) _ => [c]
                     | _ => []
                     end) t.

Definition always_failing : overrides := scenario [[5]] (Some 2) None.

(** The trace of the plugin for a single chunk [[5]] that fails three
    times, with [maxDownloadRetries] 2 and the default cap of 10. *)
Definition always_failing_labels : list (string * chunk) :=
  [("POST", [5]);
   ("onFinished", []); ("onFinished", []); ("onFinished", []);
   ("onFinished", []); ("onFinished", []); ("onFinished", []);
   ("onFinished", []); ("onFinished", []); ("onFinished", []);
   ("onChunkError", []); ("onChunkComplete", []); ("POST", [5]);
   ("onChunkError", []); ("onChunkComplete", []); ("POST", [5]);
   ("onChunkError", []); ("onChunkComplete", []);
   ("onChunkGiveUp", [5]); ("onFinished", [])]%string.

(** A plugin with chunk [[5]] at the front of the queue, three failures on
    record for it and nothing in flight. *)
Definition over_ceiling : state := {|
  concurrentDownloads := 0; chunkFailures := {[Some 5 := 3]};
  chunks := [Some [5]; Some [6]]; pending := []; fetching := false;
  trace := []
|}.

Definition three_chunks : overrides := scenario [[1]; [2]; [3]] None (Some 2).

Definition three_chunks_labels : list (string * chunk) :=
  [("POST", [1]); ("POST", [2]);
   ("onChunkSuccess", []); ("onChunkComplete", []); ("POST", [3]);
   ("onChunkSuccess", []); ("onChunkComplete", []); ("onFinished", []);
   ("onChunkSuccess", []); ("onChunkComplete", []); ("onFinished", [])]%string.

(** Two chunks with the same first element, no retry allowed, one request at
    a time. *)
Definition pooled : overrides := scenario [[7; 1]; [7; 2]] (Some 0) (Some 1).

(** Only the required settings and the chunks: no optional hook. *)
Definition silent : overrides := {|
  o_url := Some "/report"%string; o_onChunkComplete := HFunction;
  o_chunks := Some [Some [5]]; o_chunksUrl := None;
  o_onComplete := HNull; o_onChunkSuccess := HNull;
  o_onChunkError := HNull; o_onChunkGiveUp := HNull; o_onFinished := HNull;
  o_verbose := None; o_dataType := None; o_maxDownloadRetries := Some 0;
  o_concurrentDownloadsMax := None |}.

(** Both chunk sources, and a string where the [onFinished] hook should
    be. *)
Definition both_sources_bad_hook : overrides := {|
  o_url := Some "/report"%string; o_onChunkComplete := HFunction;
  o_chunks := Some [Some [1]; Some [2]]; o_chunksUrl := Some "/chunks"%string;
  o_onComplete := HNull; o_onChunkSuccess := HFunction;
  o_onChunkError := HFunction; o_onChunkGiveUp := HFunction;
  o_onFinished := HOther;
  o_verbose := None; o_dataType := None; o_maxDownloadRetries := None;
  o_concurrentDownloadsMax := None |}.

(** Both chunk sources, and no request allowed at a time. *)
Definition both_sources_no_slot : overrides := {|
  o_url := Some "/report"%string; o_onChunkComplete := HFunction;
  o_chunks := Some [Some [1]; Some [2]]; o_chunksUrl := Some "/chunks"%string;
  o_onComplete := HNull; o_onChunkSuccess := HFunction;
  o_onChunkError := HFunction; o_onChunkGiveUp := HFunction;
  o_onFinished := HFunction;
  o_verbose := None; o_dataType := None; o_maxDownloadRetries := None;
  o_concurrentDownloadsMax := Some 0 |}.

(** The chunks are to be fetched from a URL. *)
Definition from_url : overrides := {|
  o_url := Some "/report"%string; o_onChunkComplete := HFunction;
  o_chunks := None; o_chunksUrl := Some "/chunks"%string;
  o_onComplete := HNull; o_onChunkSuccess := HFunction;
  o_onChunkError := HFunction; o_onChunkGiveUp := HFunction;
  o_onFinished := HFunction;
  o_verbose := None; o_dataType := None; o_maxDownloadRetries := None;
  o_concurrentDownloadsMax := None |}.

(** The first two statements of the [error] callback. *)
Definition record_failure (currentChunk : chunk) (s : state) : state :=
  set_chunks (chunks s ++ [Some currentChunk])
    (set_chunkFailures
       (<[head currentChunk :=
            match chunkFailures s !! head currentChunk with
            | None => 1
            | Some n => n + 1
            end]> (chunkFailures s)) s).

(** ** The vocabulary of the further properties *)

(** The entries the plugin holds: those of the queue, and the chunks in
    flight. *)
Definition held (s : state) : list entry := chunks s ++ (Some <$> pending s).

(** No entry is null or undefined. *)
Definition null_free (q : list entry) : Prop := Forall is_Some q.

(** The answer to the GET of the chunk list, if that is what the input is,
    has no null entry. *)
Definition loads_no_null (inp : input) : Prop :=
  match inp with
  | ChunksLoaded data => null_free data
  | _ => True
  end.

(** The chunks that were sent, in the order of the POSTs. *)
Definition posted (t : list event) : list chunk :=
  flat_map (fun e => match e with Post _ _ c => [c] | _ => [] end) t.

(** How many more failures the key of chunk [c] can take before [c] is over
    the ceiling; a chunk without a failure on record is always sent once. *)
Definition budget (cfg : settings) (f : gmap (option Z) Z) (c : chunk) : nat :=
  match f !! head c with
  | None => Z.to_nat (Z.max 1 (maxDownloadRetries cfg + 1))
  | Some n => Z.to_nat (maxDownloadRetries cfg + 1 - n)
  end.

(** The weight of a chunk in the queue and of a chunk in flight. *)
Definition queue_weight (cfg : settings) (f : gmap (option Z) Z) (c : chunk)
  : nat :=
  (2 * budget cfg f c + 1)%nat.

Definition flight_weight (cfg : settings) (f : gmap (option Z) Z) (c : chunk)
  : nat :=
  (2 * Nat.max 1 (budget cfg f c))%nat.

Arguments queue_weight : simpl never.
Arguments flight_weight : simpl never.

(** A bound on the turns of the event loop that are left: a chunk in the
    queue can be sent and fail [budget] times and is then dropped; a chunk in
    flight has one answer to come first.  A null entry of the queue costs no
    turn. *)
Definition potential (cfg : settings) (s : state) : nat :=
  (sum_list_with (queue_weight cfg (chunkFailures s)) (chunks_of (chunks s))
   + sum_list_with (flight_weight cfg (chunkFailures s)) (pending s))%nat.

(** What the hooks are called with: [onChunkGiveUp] with a chunk that is over
    the ceiling at that moment, [onChunkComplete] and [onFinished] with
    nothing. *)
Definition hook_args_ok (cfg : settings) (e : event) : Prop :=
  match e with
  | Fired OnChunkGiveUp arg v =>
      exists c n,
        arg = Some (JArr c) /\
        seen_chunkFailures v !! head c = Some n /\
        maxDownloadRetries cfg < n
  | Fired OnChunkComplete arg _ | Fired OnFinished arg _ => arg = None
  | _ => True
  end.

(** The inputs that answer a request. *)
Definition is_response (inp : input) : bool :=
  match inp with Response _ _ => true | _ => false end.

(** Entries wait in the queue only while every slot is taken. *)
Definition saturated (cfg : settings) (s : state) : Prop :=
  chunks s = [] \/ concurrentDownloadsMax cfg <= concurrentDownloads s.

(** The same but for one slot or one chunk: the plugin inside a turn of the
    event loop, before [downloadChunk] is called. *)
Definition nearly_saturated (cfg : settings) (s : state) : Prop :=
  (length (chunks s) <= 1)%nat \/
  concurrentDownloadsMax cfg <= concurrentDownloads s + 1.

(** While the GET of the chunk list is in flight the plugin is as it was
    created. *)
Definition idle_while_fetching (s : state) : Prop :=
  fetching s = true ->
  chunkFailures s = ∅ /\ concurrentDownloads s = 0 /\ pending s = [].

(** Chunk [c] is waiting in the queue, or it has been sent, or
    [onChunkGiveUp] has been called with it. *)
Definition accounted (c : chunk) (s : state) : Prop :=
  Some c ∈ chunks s \/ c ∈ posted (trace s) \/ c ∈ given_up_chunks (trace s).

(** How often [onFinished] has fired. *)
Definition finished_count (s : state) : Z :=
  Z.of_nat (count (is_fired OnFinished) (trace s)).

Definition is_success (inp : input) : bool :=
  match inp with Response _ (Success _) => true | _ => false end.

Definition is_error (inp : input) : bool :=
  match inp with Response _ (Error _) => true | _ => false end.

(** The hooks that answer a request, as opposed to those of the queue. *)
Definition answer_hook (h : hook_name) : bool :=
  match h with
  | OnChunkSuccess | OnChunkError | OnChunkComplete => true
  | OnChunkGiveUp | OnFinished => false
  end.

(** The requests that were sent and are not in flight any more. *)
Definition answered (s : state) : Z :=
  Z.of_nat (length (posted (trace s))) - Z.of_nat (length (pending s)).

(** * Verification *)

(** ** Sequencing and loops *)

Lemma and_then_preserves (P : state -> Prop) o k :
  P (state_of o) ->
  (forall s, P s -> P (state_of (k s))) ->
  P (state_of (o >>> k)).
Proof. destruct o as [s|msg s]; simpl; auto. Qed.

Lemma times_preserves (P : state -> Prop) body :
  (forall s, P s -> P (state_of (body s))) ->
  forall n s, P s -> P (state_of (times n body s)).
Proof.
  intros Hbody n. induction n as [|n IH]; intros s Hs; simpl; [exact Hs|].
  apply and_then_preserves; auto.
Qed.

(** ** callback *)

(** What [callback] does to the plugin: nothing but, for a function, one
    more line of trace. *)
Lemma callback_cases h cb params s :
  (cb = HNull /\ callback h cb params s = Done s) \/
  (cb = HFunction /\
   callback h cb params s =
     Done (emit (Fired h (if truthy params then Some params else None)
                         (view_of s)) s)) \/
  (cb = HOther /\ exists msg, callback h cb params s = Thrown msg s).
Proof. destruct cb; simpl; eauto 6. Qed.

(** A property of the plugin that no line of trace can break, given that the
    view a hook gets is fine, survives [callback]. *)
Lemma callback_preserves (P : state -> Prop) h cb params s :
  P s ->
  (forall arg, P s -> P (emit (Fired h arg (view_of s)) s)) ->
  P (state_of (callback h cb params s)).
Proof. intros Hs Hemit. destruct cb; simpl; auto. Qed.

Lemma callback_fields h cb params s :
  let s' := state_of (callback h cb params s) in
  concurrentDownloads s' = concurrentDownloads s /\
  chunkFailures s' = chunkFailures s /\
  chunks s' = chunks s /\
  pending s' = pending s /\
  fetching s' = fetching s.
Proof. destruct cb; simpl; auto. Qed.

(** ** downloadChunk *)

Lemma and_then_ext o k k' :
  (forall s, o = Done s -> k s = k' s) -> o >>> k = o >>> k'.
Proof. destruct o as [s|msg s]; simpl; auto. Qed.

(** The equation of [downloadChunk], in the shape of the source: the
    recursive call is [downloadChunk] itself on the plugin as the give-up
    hook left it. *)
Lemma downloadChunk_eq cfg s :
  downloadChunk cfg s =
  if concurrentDownloadsMax cfg <=? concurrentDownloads s then Done s
  else
    match chunks s with
    | [] => callback OnFinished (onFinished cfg) JUndefined s
    | None :: q' =>
        callback OnFinished (onFinished cfg) JUndefined (set_chunks q' s)
    | Some currentChunk :: q' =>
        let s1 := set_chunks q' s in
        if given_up cfg s1 currentChunk then
          callback OnChunkGiveUp (onChunkGiveUp cfg) (JArr currentChunk) s1 >>>
          downloadChunk cfg
        else
          Done (ajax_post cfg currentChunk
                  (set_concurrentDownloads (concurrentDownloads s1 + 1) s1))
    end.
Proof.
  unfold downloadChunk.
  destruct (chunks s) as [|[c|] q'] eqn:Hq; simpl; [done| |done].
  destruct (concurrentDownloadsMax cfg <=? concurrentDownloads s); [done|].
  destruct (given_up cfg (set_chunks q' s) c); [|done].
  apply and_then_ext. intros s2 Hs2.
  pose proof (callback_fields OnChunkGiveUp (onChunkGiveUp cfg) (JArr c)
                (set_chunks q' s)) as Hf.
  rewrite Hs2 in Hf. simpl in Hf. destruct Hf as (_ & _ & Hc & _).
  by rewrite Hc.
Qed.

(** Induction along the control flow of [downloadChunk]. *)
Lemma downloadChunk_induction cfg (P : state -> outcome -> Prop) :
  (forall s,
      concurrentDownloadsMax cfg <= concurrentDownloads s -> P s (Done s)) ->
  (forall s,
      concurrentDownloads s < concurrentDownloadsMax cfg ->
      chunks s = [] ->
      P s (callback OnFinished (onFinished cfg) JUndefined s)) ->
  (forall s q',
      concurrentDownloads s < concurrentDownloadsMax cfg ->
      chunks s = None :: q' ->
      P s (callback OnFinished (onFinished cfg) JUndefined (set_chunks q' s))) ->
  (forall s c q',
      concurrentDownloads s < concurrentDownloadsMax cfg ->
      chunks s = Some c :: q' ->
      given_up cfg s c = false ->
      P s (Done (ajax_post cfg c
                   (set_concurrentDownloads (concurrentDownloads s + 1)
                      (set_chunks q' s))))) ->
  (forall s c q' msg s1,
      concurrentDownloads s < concurrentDownloadsMax cfg ->
      chunks s = Some c :: q' ->
      given_up cfg s c = true ->
      callback OnChunkGiveUp (onChunkGiveUp cfg) (JArr c) (set_chunks q' s)
        = Thrown msg s1 ->
      P s (Thrown msg s1)) ->
  (forall s c q' s1,
      concurrentDownloads s < concurrentDownloadsMax cfg ->
      chunks s = Some c :: q' ->
      given_up cfg s c = true ->
      callback OnChunkGiveUp (onChunkGiveUp cfg) (JArr c) (set_chunks q' s)
        = Done s1 ->
      P s1 (downloadChunk cfg s1) ->
      P s (downloadChunk cfg s1)) ->
  forall s, P s (downloadChunk cfg s).
Proof.
  intros Hfull Hempty Hnull Hpost Hthrow Hrec s.
  remember (chunks s) as q eqn:Hq. revert s Hq.
  induction q as [|[c|] q' IH]; intros s Hq; rewrite downloadChunk_eq;
    destruct (Z.leb_spec (concurrentDownloadsMax cfg) (concurrentDownloads s))
      as [Hle|Hlt]; auto; rewrite <- Hq; auto.
  cbv zeta.
  change (given_up cfg (set_chunks q' s) c) with (given_up cfg s c).
  destruct (given_up cfg s c) eqn:Hgu; [|by apply (Hpost s c q')].
  destruct (callback OnChunkGiveUp (onChunkGiveUp cfg) (JArr c)
              (set_chunks q' s)) as [s1|msg s1] eqn:Hcb; simpl.
  - apply (Hrec s c q'); auto. apply IH.
    pose proof (callback_fields OnChunkGiveUp (onChunkGiveUp cfg) (JArr c)
                  (set_chunks q' s)) as Hf.
    rewrite Hcb in Hf. simpl in Hf. destruct Hf as (_ & _ & Hc & _). done.
  - apply (Hthrow s c q'); auto.
Qed.

(** ** The invariant of the plugin *)

Lemma and_then_inv (P Q : state -> Prop) o k :
  P (state_of o) ->
  (forall s, P s -> Q s) ->
  (forall s, P s -> Q (state_of (k s))) ->
  Q (state_of (o >>> k)).
Proof. destruct o as [s|msg s]; simpl; auto. Qed.

Lemma inv_weaken cfg k k' s : k' <= k -> inv cfg k s -> inv cfg k' s.
Proof. unfold inv. intros Hk [Hb Ht]. split; [lia|done]. Qed.

Lemma callback_inv cfg k h cb params s :
  0 <= k ->
  inv cfg k s ->
  inv cfg k (state_of (callback h cb params s)).
Proof.
  intros Hk Hs. apply callback_preserves; [done|].
  intros arg [Hb Ht]. split; simpl; [done|].
  apply Forall_app. split; [done|].
  constructor; [|constructor]. simpl. lia.
Qed.

Lemma downloadChunk_inv cfg s :
  inv cfg 0 s -> inv cfg 0 (state_of (downloadChunk cfg s)).
Proof.
  pattern s, (downloadChunk cfg s). apply downloadChunk_induction; clear s.
  - done.
  - intros s _ Hq Hs. by apply callback_inv.
  - intros s q' _ Hq Hs. by apply callback_inv.
  - intros s c q' Hlt _ _ [Hb Ht]. split; simpl.
    + rewrite length_app. simpl. lia.
    + apply Forall_app. split; [done|]. by repeat constructor.
  - intros s c q' msg s1 _ _ _ Hcb Hs.
    change s1 with (state_of (Thrown msg s1)). rewrite <- Hcb.
    by apply callback_inv.
  - intros s c q' s1 _ _ _ Hcb IH Hs. apply IH.
    change s1 with (state_of (Done s1)). rewrite <- Hcb.
    by apply callback_inv.
Qed.

Lemma ajax_success_inv cfg k data s :
  0 <= k -> inv cfg k s -> inv cfg k (state_of (ajax_success cfg data s)).
Proof. intros Hk Hs. by apply callback_inv. Qed.

Lemma ajax_error_inv cfg k c error s :
  0 <= k -> inv cfg k s -> inv cfg k (state_of (ajax_error cfg c error s)).
Proof. intros Hk Hs. unfold ajax_error. by apply callback_inv. Qed.

Lemma ajax_complete_inv cfg s :
  inv cfg 1 s -> inv cfg 0 (state_of (ajax_complete cfg s)).
Proof.
  intros [Hb Ht]. unfold ajax_complete.
  apply and_then_preserves; [|apply downloadChunk_inv].
  apply callback_inv; [lia|]. split; simpl; [lia|done].
Qed.

Lemma start_inv cfg cs s :
  inv cfg 0 s -> inv cfg 0 (state_of (start cfg cs s)).
Proof.
  intros Hs. destruct cs as [cs|]; simpl.
  - apply times_preserves; [apply downloadChunk_inv|]. exact Hs.
  - by destruct (0 <? concurrentDownloadsMax cfg).
Qed.

Lemma step_inv cfg inp s out :
  inv cfg 0 s -> step cfg inp s = Some out -> inv cfg 0 (state_of out).
Proof.
  intros Hs Hstep. destruct inp as [i r| data |]; simpl in Hstep.
  - destruct (pending s !! i) as [c|] eqn:Hi; [|done].
    injection Hstep as <-.
    assert (inv cfg 1 (set_pending (delete i (pending s)) s)) as H1.
    { destruct Hs as [Hb Ht]. split; simpl; [|done].
      rewrite length_delete by eauto.
      apply lookup_lt_Some in Hi. lia. }
    apply and_then_inv with (P := inv cfg 1).
    + destruct r; [by apply ajax_success_inv | by apply ajax_error_inv].
    + intros s'. apply inv_weaken. lia.
    + apply ajax_complete_inv.
  - destruct (fetching s); [|done]. injection Hstep as <-.
    by apply (start_inv cfg (Some data) (set_fetching false s)).
  - destruct (fetching s); [|done]. by injection Hstep as <-.
Qed.

Lemma chunkatron_inv o :
  inv (extend defaultOptions o) 0 (state_of (chunkatron o)).
Proof.
  assert (inv (extend defaultOptions o) 0 initial) as H0.
  { split; simpl; [lia|constructor]. }
  unfold chunkatron. destruct (verifySettings _); [done|].
  destruct (settings_chunks _) as [cs|] eqn:Hcs.
  - by apply start_inv.
  - destruct (chunksUrl _) as [u|]; [|by apply start_inv].
    split; simpl; [lia|by repeat constructor].
Qed.

Lemma reachable_inv o s :
  reachable o s -> inv (extend defaultOptions o) 0 s.
Proof.
  induction 1 as [|s inp out _ IH Hstep]; [apply chunkatron_inv|].
  by apply (step_inv _ inp s).
Qed.

(** ** Properties of the trace that only a GET could break *)

Section TraceProperty.
Variable T : list event -> Prop.
Hypothesis T_emit : forall t e, is_get e = false -> T t -> T (t ++ [e]).

Lemma callback_settled h cb params s :
  settled T s -> settled T (state_of (callback h cb params s)).
Proof.
  intros Hs. apply callback_preserves; [done|].
  intros arg [Hf Ht]. split; simpl; [done|]. by apply T_emit.
Qed.

Lemma downloadChunk_settled cfg s :
  settled T s -> settled T (state_of (downloadChunk cfg s)).
Proof.
  pattern s, (downloadChunk cfg s). apply downloadChunk_induction; clear s.
  - done.
  - intros s _ _ Hs. by apply callback_settled.
  - intros s q' _ _ Hs. by apply callback_settled.
  - intros s c q' _ _ _ [Hf Ht]. split; simpl; [done|]. by apply T_emit.
  - intros s c q' msg s1 _ _ _ Hcb Hs.
    change s1 with (state_of (Thrown msg s1)). rewrite <- Hcb.
    by apply callback_settled.
  - intros s c q' s1 _ _ _ Hcb IH Hs. apply IH.
    change s1 with (state_of (Done s1)). rewrite <- Hcb.
    by apply callback_settled.
Qed.

Lemma start_settled cfg cs s :
  settled T s -> settled T (state_of (start cfg cs s)).
Proof.
  intros Hs. destruct cs as [cs|]; simpl.
  - apply times_preserves; [apply downloadChunk_settled|]. exact Hs.
  - by destruct (0 <? concurrentDownloadsMax cfg).
Qed.

Lemma step_settled cfg inp s out :
  settled T s -> step cfg inp s = Some out -> settled T (state_of out).
Proof.
  intros Hs Hstep. destruct inp as [i r| data |]; simpl in Hstep.
  - destruct (pending s !! i) as [c|]; [|done]. injection Hstep as <-.
    apply and_then_preserves.
    + destruct r; unfold ajax_success, ajax_error;
        by apply callback_settled.
    + intros s' Hs'. unfold ajax_complete.
      apply and_then_preserves; [|apply downloadChunk_settled].
      by apply callback_settled.
  - destruct Hs as [Hf _]. by rewrite Hf in Hstep.
  - destruct Hs as [Hf _]. by rewrite Hf in Hstep.
Qed.
End TraceProperty.

(** Code only ever adds to the trace. *)
Lemma downloadChunk_extends cfg s :
  exists new, trace (state_of (downloadChunk cfg s)) = trace s ++ new.
Proof.
  pattern s, (downloadChunk cfg s). apply downloadChunk_induction; clear s.
  - intros s _. exists []. by rewrite app_nil_r.
  - intros s _ _. destruct (onFinished cfg); simpl; eauto.
    all: exists []; by rewrite app_nil_r.
  - intros s q' _ _. destruct (onFinished cfg); simpl; eauto.
    all: exists []; by rewrite app_nil_r.
  - intros s c q' _ _ _. simpl. eauto.
  - intros s c q' msg s1 _ _ _ Hcb.
    destruct (onChunkGiveUp cfg); simplify_eq/=. exists []. by rewrite app_nil_r.
  - intros s c q' s1 _ _ _ Hcb [new Hnew]. rewrite Hnew.
    destruct (onChunkGiveUp cfg); simplify_eq/=; eauto.
    rewrite <- app_assoc. eauto.
Qed.

Lemma times_downloadChunk_extends cfg n s :
  exists new,
    trace (state_of (times n (downloadChunk cfg) s)) = trace s ++ new.
Proof.
  revert s. induction n as [|n IH]; intros s; simpl.
  - exists []. by rewrite app_nil_r.
  - destruct (downloadChunk_extends cfg s) as [new1 H1].
    destruct (downloadChunk cfg s) as [s1|msg s1]; simpl in *; [|eauto].
    destruct (IH s1) as [new2 H2]. rewrite H2, H1, <- app_assoc. eauto.
Qed.

(** ** Hooks that are functions or null never throw *)

Lemma callback_returns h cb params s :
  cb <> HOther -> exists s', callback h cb params s = Done s'.
Proof. destruct cb; simpl; eauto. done. Qed.

Lemma downloadChunk_returns cfg s :
  hooks_typed cfg -> exists s', downloadChunk cfg s = Done s'.
Proof.
  intros (_ & _ & Hgu & _ & Hfin).
  pattern s, (downloadChunk cfg s). apply downloadChunk_induction; clear s.
  - eauto.
  - intros s _ _. by apply callback_returns.
  - intros s q' _ _. by apply callback_returns.
  - eauto.
  - intros s c q' msg s1 _ _ _ Hcb.
    destruct (callback_returns OnChunkGiveUp _ (JArr c) (set_chunks q' s) Hgu)
      as [s' Hs']. congruence.
  - auto.
Qed.

Lemma times_downloadChunk_returns cfg n s :
  hooks_typed cfg -> exists s', times n (downloadChunk cfg) s = Done s'.
Proof.
  intros Hty. revert s. induction n as [|n IH]; intros s; simpl; [eauto|].
  destruct (downloadChunk_returns cfg s Hty) as [s1 ->]. simpl. apply IH.
Qed.

(** ** verifySettings *)

Lemma verifySettings_eq cfg :
  verifySettings cfg =
  if is_none (url cfg) then
    Some "Chunkatron requires a value for the 'url' setting"%string
  else if is_null (onChunkComplete cfg) then
    Some "Chunkatron requires a value for the 'onChunkComplete' setting"%string
  else if is_none (settings_chunks cfg) && is_none (chunksUrl cfg) then
    Some "Either the chunks or the chunksUrl must be provided"%string
  else None.
Proof.
  destruct cfg as [u occ cs cu oc ocs oce ocg ofi vb dt mr cm].
  destruct u, occ; reflexivity.
Qed.

(** ** Counting in a trace, and what [downloadChunk] leaves behind *)

Lemma count_app p (t1 t2 : list event) :
  count p (t1 ++ t2) = (count p t1 + count p t2)%nat.
Proof. unfold count. by rewrite List.filter_app, length_app. Qed.

Lemma count_snoc p (t : list event) e :
  count p (t ++ [e]) = if p e then S (count p t) else count p t.
Proof.
  rewrite count_app. unfold count. simpl. destruct (p e); simpl; lia.
Qed.

Lemma no_get_emit t e : is_get e = false -> no_get t -> no_get (t ++ [e]).
Proof. intros He Ht. apply Forall_app. split; [done|]. by constructor. Qed.

Lemma reachable_settled T o :
  (forall t e, is_get e = false -> T t -> T (t ++ [e])) ->
  settled T (state_of (chunkatron o)) ->
  forall s, reachable o s -> settled T s.
Proof.
  intros HT H0 s. induction 1 as [|s inp out _ IH Hstep]; [done|].
  by apply (step_settled T HT (extend defaultOptions o) inp s).
Qed.

Lemma abandoned_ext cfg s1 s2 q :
  chunkFailures s1 = chunkFailures s2 ->
  abandoned cfg s1 q = abandoned cfg s2 q.
Proof.
  intros Hf. induction q as [|c q IH]; simpl; [done|].
  unfold given_up. by rewrite Hf, IH.
Qed.

Lemma given_up_chunks_app t1 t2 :
  given_up_chunks (t1 ++ t2) = given_up_chunks t1 ++ given_up_chunks t2.
Proof. unfold given_up_chunks. by rewrite flat_map_app. Qed.

(** What a call of [downloadChunk] with a free slot does, when
    [onChunkGiveUp] is a function: it drops the chunks over the ceiling at
    the front of the queue, with one call of [onChunkGiveUp] for each, and
    takes the entry that follows them, if there is one, off the queue: a
    chunk is sent, a null entry is not. *)
Lemma downloadChunk_spec cfg s :
  onChunkGiveUp cfg = HFunction ->
  concurrentDownloads s < concurrentDownloadsMax cfg ->
  let s' := state_of (downloadChunk cfg s) in
  let n := length (abandoned cfg s (chunks s)) in
  given_up_chunks (trace s')
    = given_up_chunks (trace s) ++ abandoned cfg s (chunks s) /\
  chunks s' = drop (S n) (chunks s) /\
  pending s' = pending s ++ chunks_of (take 1 (drop n (chunks s))) /\
  chunkFailures s' = chunkFailures s.
Proof.
  intros Hgu. cbv zeta. pattern s, (downloadChunk cfg s).
  apply downloadChunk_induction; clear s.
  - intros s Hle Hlt. lia.
  - intros s _ Hq _.
    destruct (callback_fields OnFinished (onFinished cfg) JUndefined s)
      as (_ & -> & -> & -> & _).
    rewrite Hq. simpl. rewrite !app_nil_r. split; [|done].
    destruct (onFinished cfg); simpl; try done.
    rewrite given_up_chunks_app. simpl. by rewrite app_nil_r.
  - intros s q' _ Hq _.
    destruct (callback_fields OnFinished (onFinished cfg) JUndefined
                (set_chunks q' s)) as (_ & -> & -> & -> & _).
    rewrite Hq. simpl. rewrite !app_nil_r. split; [|by rewrite drop_0].
    destruct (onFinished cfg); simpl; try done.
    rewrite given_up_chunks_app. simpl. by rewrite app_nil_r.
  - intros s c q' _ Hq Hng _. rewrite Hq. simpl. rewrite Hng. simpl.
    rewrite given_up_chunks_app. simpl. by rewrite drop_0.
  - intros s c q' msg s1 _ _ _ Hcb. by rewrite Hgu in Hcb.
  - intros s c q' s1 Hlt Hq Hyes Hcb IH _.
    rewrite Hgu in Hcb. simpl in Hcb. injection Hcb as <-.
    destruct IH as (Ht & Hc & Hp & Hf); [done|].
    simpl in Ht, Hc, Hp, Hf.
    rewrite (abandoned_ext cfg _ s q') in Ht, Hc, Hp by reflexivity.
    rewrite Hq. simpl. rewrite Hyes. simpl.
    rewrite Ht, Hc, Hp, Hf, given_up_chunks_app. simpl.
    by rewrite <- app_assoc.
Qed.

Lemma ajax_error_eq cfg c error s :
  ajax_error cfg c error s
  = callback OnChunkError (onChunkError cfg) error (record_failure c s).
Proof. reflexivity. Qed.

(** * The claims *)

(** ** C1 *)

(** C1: a dequeued chunk whose failure counter is over
    [maxDownloadRetries] is handed to [onChunkGiveUp] and dropped, and
    [downloadChunk] goes on at once with the rest of the queue.  With [c] at
    the front of the queue, a free slot and [onChunkGiveUp] a function:
    [downloadChunk] is [downloadChunk] on the plugin without [c] in the
    queue and with one call of [onChunkGiveUp] on [c] more in the trace; in
    the end [onChunkGiveUp] has been called once for [c] and once for each
    chunk over the ceiling that followed it, the queue is a part of what
    followed [c], and the only request that may have been issued is for the
    first entry after those, if that is a chunk.  For the single chunk [[5]] that fails on every
    attempt, with [maxDownloadRetries] 2: one request is in flight at a time,
    after the third failure the trace has three POSTs of [[5]] and three
    [onChunkError]s followed by one [onChunkGiveUp] on [[5]], and then
    nothing is in the queue or in flight, so that no further turn of the
    event loop exists. *)
Theorem C1_give_up_over_ceiling :
  (forall cfg s c q' n,
      concurrentDownloads s < concurrentDownloadsMax cfg ->
      chunks s = Some c :: q' ->
      chunkFailures s !! head c = Some n ->
      maxDownloadRetries cfg < n ->
      onChunkGiveUp cfg = HFunction ->
      let s1 := emit (Fired OnChunkGiveUp (Some (JArr c))
                            (view_of (set_chunks q' s)))
                     (set_chunks q' s) in
      let s' := state_of (downloadChunk cfg s) in
      let k := length (abandoned cfg s q') in
      downloadChunk cfg s = downloadChunk cfg s1 /\
      given_up_chunks (trace s')
        = given_up_chunks (trace s) ++ c :: abandoned cfg s q' /\
      chunks s' = drop (S k) q' /\
      pending s' = pending s ++ chunks_of (take 1 (drop k q'))) /\
  (forall e1 e2 e3,
      let cfg := extend defaultOptions always_failing in
      let s0 := state_of (chunkatron always_failing) in
      pending s0 = [[5]] /\
      exists s1 s2 s3,
        step cfg (Response 0 (Error e1)) s0 = Some (Done s1) /\
        pending s1 = [[5]] /\
        step cfg (Response 0 (Error e2)) s1 = Some (Done s2) /\
        pending s2 = [[5]] /\
        step cfg (Response 0 (Error e3)) s2 = Some (Done s3) /\
        labels (trace s3) = always_failing_labels /\
        count (is_post [5]) (trace s3) = 3%nat /\
        count (is_fired OnChunkError) (trace s3) = 3%nat /\
        given_up_chunks (trace s3) = [[5]] /\
        pending s3 = [] /\ chunks s3 = [] /\
        forall inp, step cfg inp s3 = None).
Proof.
  split.
  - intros cfg s c q' n Hlt Hq Hn Hover Hgu s1 s' k.
    assert (given_up cfg s c = true) as Hyes.
    { unfold given_up. rewrite Hn. by apply Z.ltb_lt. }
    split.
    + rewrite (downloadChunk_eq cfg s).
      destruct (Z.leb_spec (concurrentDownloadsMax cfg) (concurrentDownloads s));
        [lia|].
      rewrite Hq. cbv zeta.
      change (given_up cfg (set_chunks q' s) c) with (given_up cfg s c).
      rewrite Hyes, Hgu. reflexivity.
    + destruct (downloadChunk_spec cfg s Hgu Hlt) as (Ht & Hc & Hp & _).
      rewrite Hq in Ht, Hc, Hp. simpl in Ht, Hc, Hp.
      rewrite Hyes in Ht, Hc, Hp. done.
  - intros e1 e2 e3 cfg s0.
    let t := eval vm_compute in
      (state_of (default (Done initial) (step cfg (Response 0 (Error e1)) s0)))
    in pose (s1 := t).
    let t := eval vm_compute in
      (state_of (default (Done initial) (step cfg (Response 0 (Error e2)) s1)))
    in pose (s2 := t).
    let t := eval vm_compute in
      (state_of (default (Done initial) (step cfg (Response 0 (Error e3)) s2)))
    in pose (s3 := t).
    split; [reflexivity|]. exists s1, s2, s3.
    repeat (split; [vm_compute; reflexivity|]).
    intros [i r| data |]; vm_compute; reflexivity.
Qed.

Lemma C1_witness :
  let cfg := extend defaultOptions always_failing in
  let s' := state_of (downloadChunk cfg over_ceiling) in
  given_up_chunks (trace s') = [[5]] /\ chunks s' = [] /\ pending s' = [[6]].
Proof.
  intros cfg s'.
  destruct (proj1 C1_give_up_over_ceiling cfg over_ceiling [5] [Some [6]] 3)
    as (_ & Hg & Hc & Hp);
    [simpl; lia | reflexivity | reflexivity | simpl; lia | reflexivity |].
  exact (conj Hg (conj Hc Hp)).
Defined.

(** ** C2 *)

(** C2, as stated, fails: nothing checks [concurrentDownloadsMax], and with a
    negative cap the counter, which starts at 0, is above the cap from the
    first state on. *)
Lemma C2_negative_cap_counterexample :
  reachable negative_cap (state_of (chunkatron negative_cap)) /\
  ~ counter_in_bounds (extend defaultOptions negative_cap)
      (concurrentDownloads (state_of (chunkatron negative_cap))).
Proof.
  split; [constructor|]. unfold counter_in_bounds. simpl. lia.
Qed.

(** C2, amended: for every configuration whose [concurrentDownloadsMax] is
    not negative, in every reachable state the counter of requests in flight
    is between 0 and [concurrentDownloadsMax], it is at least the number of
    requests that are in flight, and every hook that has fired saw it within
    these bounds; a call of [downloadChunk] (which may issue a request) and
    the completion of a request lead to states within the bounds again. *)
Theorem C2_counter_in_bounds o s :
  0 <= concurrentDownloadsMax (extend defaultOptions o) ->
  reachable o s ->
  counter_in_bounds (extend defaultOptions o) (concurrentDownloads s) /\
  Z.of_nat (length (pending s)) <= concurrentDownloads s /\
  (forall h arg v,
      In (Fired h arg v) (trace s) ->
      counter_in_bounds (extend defaultOptions o) (seen_concurrentDownloads v)) /\
  counter_in_bounds (extend defaultOptions o)
    (concurrentDownloads (state_of (downloadChunk (extend defaultOptions o) s))) /\
  (forall inp out,
      step (extend defaultOptions o) inp s = Some out ->
      counter_in_bounds (extend defaultOptions o)
        (concurrentDownloads (state_of out))).
Proof.
  intros Hcap Hs. pose proof (reachable_inv o s Hs) as Hinv.
  generalize dependent (extend defaultOptions o). intros cfg Hcap Hinv.
  assert (forall s', inv cfg 0 s' ->
            counter_in_bounds cfg (concurrentDownloads s')) as Hb.
  { intros s' [Hb' _]. unfold counter_in_bounds. lia. }
  split; [by apply Hb|]. split; [destruct Hinv as [Hb' _]; lia|].
  split; [|split].
  - intros h arg v Hin. destruct Hinv as [_ Ht].
    rewrite Forall_forall in Ht. apply list_elem_of_In, Ht in Hin.
    simpl in Hin. unfold counter_in_bounds. lia.
  - apply Hb. by apply downloadChunk_inv.
  - intros inp out Hstep. apply Hb. by apply (step_inv cfg inp s).
Qed.

Lemma C2_witness :
  counter_in_bounds (extend defaultOptions three_chunks)
    (concurrentDownloads (state_of (chunkatron three_chunks))) /\
  concurrentDownloads (state_of (chunkatron three_chunks)) = 2.
Proof.
  split; [|reflexivity].
  apply (C2_counter_in_bounds three_chunks (state_of (chunkatron three_chunks)));
    [simpl; lia | constructor].
Defined.

(** ** C3 *)

(** C3, as stated, fails when the error detail is falsy, as the empty
    string that jQuery passes for a request that got no HTTP status text:
    [callback] then calls [onChunkError] without an argument. *)
Lemma C3_empty_error_counterexample :
  let cfg := extend defaultOptions always_failing in
  let s0 := state_of (chunkatron always_failing) in
  exists s1,
    step cfg (Response 0 (Error (JStr ""))) s0 = Some (Done s1) /\
    count (is_fired OnChunkError) (trace s1) = 1%nat /\
    forall arg v, In (Fired OnChunkError arg v) (trace s1) -> arg = None.
Proof.
  intros cfg s0.
  let t := eval vm_compute in
    (state_of (default (Done initial)
                 (step cfg (Response 0 (Error (JStr ""))) s0)))
  in pose (s1 := t).
  exists s1. split; [vm_compute; reflexivity|].
  split; [vm_compute; reflexivity|].
  intros arg v H. vm_compute in H.
  repeat (destruct H as [H|H]; [by inversion H|]). destruct H.
Qed.

(** C3, amended: when the request of chunk [c] ends in an error, the
    failure counter under [c[0]] goes up by one (to 1 if there was none),
    then [c] is pushed onto the back of the queue, behind every chunk that
    is waiting, whatever the hooks are; then, if [onChunkError] is a function,
    it is called, seeing the counter and the queue already updated, with the
    error detail if that is truthy and without an argument if not. *)
Theorem C3_error_requeues_at_back cfg c error s :
  let n' := match chunkFailures s !! head c with
            | None => 1
            | Some n => n + 1
            end in
  let s' := state_of (ajax_error cfg c error s) in
  chunkFailures s' = <[head c := n']> (chunkFailures s) /\
  chunkFailures s' !! head c = Some n' /\
  chunks s' = chunks s ++ [Some c] /\
  last (chunks s') = Some (Some c) /\
  concurrentDownloads s' = concurrentDownloads s /\
  pending s' = pending s /\
  (onChunkError cfg = HFunction ->
   ajax_error cfg c error s = Done s' /\
   trace s' = trace s ++
     [Fired OnChunkError (if truthy error then Some error else None)
        {| seen_chunks := chunks s ++ [Some c];
           seen_concurrentDownloads := concurrentDownloads s;
           seen_chunkFailures := <[head c := n']> (chunkFailures s) |}]).
Proof.
  intros n' s'. subst s'. unfold ajax_error. cbv zeta.
  match goal with |- context [callback ?h ?cb ?p ?s2] =>
    pose proof (callback_fields h cb p s2) as Hf;
    destruct (callback_cases h cb p s2) as [[Hcb E]|[[Hcb E]|[Hcb [msg E]]]]
  end; rewrite E in *; simpl in *; fold n';
    (repeat split; try done;
     try (by rewrite lookup_insert_eq); try (by rewrite last_snoc);
     try congruence).
Qed.

Lemma C3_witness :
  exists s',
    ajax_error (extend defaultOptions always_failing) [5] (JStr "Not Found")
      over_ceiling = Done s' /\
    chunkFailures s' !! Some 5 = Some 4 /\
    chunks s' = [Some [5]; Some [6]; Some [5]].
Proof.
  destruct (C3_error_requeues_at_back
              (extend defaultOptions always_failing) [5] (JStr "Not Found")
              over_ceiling)
    as (_ & Hn & Hq & _ & _ & _ & Hcall).
  destruct (Hcall eq_refl) as [Hdone _].
  eexists. split; [exact Hdone|]. split; [exact Hn | exact Hq].
Defined.

(** ** C4 *)

(** C4 is what the comment in [downloadChunk] says of the test
    [currentChunk == null] ("none are left and all have been dealt with"),
    and the code does not keep to it: the test is on the entry taken off the
    queue, not on the queue, and holds for an entry that is null.  For the
    chunk list [[1], null, [2]] and a cap of 2 the constructor sends [[1]]
    and fires [onFinished] while [[2]] is in the queue.  With a cap of 1 it
    sends [[1]]; the answer fires [onFinished] with [[2]] in the queue and
    nothing in flight, and no turn of the event loop is left: [[2]] is never
    sent. *)
Theorem C4_onFinished_with_a_chunk_queued :
  (let s := state_of (chunkatron (with_null_entry 2)) in
   chunkatron (with_null_entry 2) = Done s /\
   labels (trace s) = [("POST", [1]); ("onFinished", [])]%string /\
   last (trace s)
     = Some (Fired OnFinished None
               {| seen_chunks := [Some [2]];
                  seen_concurrentDownloads := 1;
                  seen_chunkFailures := ∅ |}) /\
   chunks s = [Some [2]] /\ pending s = [[1]] /\
   ~ Forall finished_saw_empty_queue (trace s)) /\
  (forall data,
      let cfg := extend defaultOptions (with_null_entry 1) in
      let s0 := state_of (chunkatron (with_null_entry 1)) in
      exists s1,
        step cfg (Response 0 (Success data)) s0 = Some (Done s1) /\
        labels (trace s1)
          = [("POST", [1]); ("onChunkSuccess", []); ("onChunkComplete", []);
             ("onFinished", [])]%string /\
        last (trace s1)
          = Some (Fired OnFinished None
                    {| seen_chunks := [Some [2]];
                       seen_concurrentDownloads := 0;
                       seen_chunkFailures := ∅ |}) /\
        chunks s1 = [Some [2]] /\ pending s1 = [] /\
        count (is_post [2]) (trace s1) = 0%nat /\
        ~ Forall finished_saw_empty_queue (trace s1) /\
        forall inp, step cfg inp s1 = None).
Proof.
  split.
  - cbv zeta. repeat (split; [vm_compute; reflexivity|]).
    intros H. vm_compute in H.
    apply Forall_inv_tail, Forall_inv in H. discriminate H.
  - intros data cfg s0.
    let t := eval vm_compute in
      (state_of (default (Done initial)
                   (step cfg (Response 0 (Success data)) s0)))
    in pose (s1 := t).
    exists s1. repeat (split; [vm_compute; reflexivity|]). split.
    + intros H. unfold s1 in H. simpl in H.
      do 3 apply Forall_inv_tail in H. apply Forall_inv in H. discriminate H.
    + intros [i r| data' |]; vm_compute; reflexivity.
Qed.

(** ** C5 *)

(** C5: a configuration without [url], without [onChunkComplete], or with
    neither [chunks] nor [chunksUrl] makes the constructor throw, with the
    plugin as it was created: no request has been issued and none is in
    flight. *)
Theorem C5_missing_settings_throw o :
  url (extend defaultOptions o) = None \/
  onChunkComplete (extend defaultOptions o) = HNull \/
  (settings_chunks (extend defaultOptions o) = None /\
   chunksUrl (extend defaultOptions o) = None) ->
  exists msg s,
    chunkatron o = Thrown msg s /\
    trace s = [] /\ pending s = [] /\ fetching s = false /\
    In msg ["Chunkatron requires a value for the 'url' setting";
            "Chunkatron requires a value for the 'onChunkComplete' setting";
            "Either the chunks or the chunksUrl must be provided"]%string.
Proof.
  intros H. unfold chunkatron. cbv zeta. rewrite verifySettings_eq.
  assert (forall msg,
            In msg ["Chunkatron requires a value for the 'url' setting";
                    "Chunkatron requires a value for the 'onChunkComplete' setting";
                    "Either the chunks or the chunksUrl must be provided"]%string ->
            exists msg' s,
              Thrown msg initial = Thrown msg' s /\
              trace s = [] /\ pending s = [] /\ fetching s = false /\
              In msg' ["Chunkatron requires a value for the 'url' setting";
                       "Chunkatron requires a value for the 'onChunkComplete' setting";
                       "Either the chunks or the chunksUrl must be provided"]%string)
    as Hthrown.
  { intros msg Hin. exists msg, initial. auto. }
  generalize dependent (extend defaultOptions o). intros cfg H.
  destruct (url cfg) as [u|]; simpl; [|apply Hthrown; simpl; auto].
  destruct (onChunkComplete cfg); simpl; [apply Hthrown; simpl; auto| |].
  all: destruct H as [H|[H|[-> ->]]]; try done;
    simpl; apply Hthrown; simpl; auto.
Qed.

Lemma C5_witness :
  exists msg s,
    chunkatron no_overrides = Thrown msg s /\
    trace s = [] /\ pending s = [] /\ fetching s = false /\
    In msg ["Chunkatron requires a value for the 'url' setting";
            "Chunkatron requires a value for the 'onChunkComplete' setting";
            "Either the chunks or the chunksUrl must be provided"]%string.
Proof.
  apply (C5_missing_settings_throw no_overrides). left. reflexivity.
Defined.

(** ** C6 *)

(** C6: chunks [[1]], [[2]], [[3]] with a cap of 2, every request
    succeeding.  Whatever the order in which the three requests are answered
    and whatever their payloads, the run ends with nothing queued or in
    flight, with exactly three calls of [onChunkSuccess] and three of
    [onChunkComplete], and with a call of [onFinished] after all of them (the
    last line of the trace); no further turn of the event loop exists.
    [onFinished] also fires once before, when the second answer finds the
    queue empty while the request of [[3]] is in flight. *)
Theorem C6_three_chunks_all_succeed i1 d1 i2 d2 i3 d3 s :
  run (extend defaultOptions three_chunks)
      [Response i1 (Success d1); Response i2 (Success d2);
       Response i3 (Success d3)]
      (state_of (chunkatron three_chunks)) = Some s ->
  count (is_fired OnChunkSuccess) (trace s) = 3%nat /\
  count (is_fired OnChunkComplete) (trace s) = 3%nat /\
  (exists t v,
      trace s = t ++ [Fired OnFinished None v] /\
      count (is_fired OnChunkSuccess) t = 3%nat /\
      count (is_fired OnChunkComplete) t = 3%nat) /\
  labels (trace s) = three_chunks_labels /\
  pending s = [] /\ chunks s = [] /\
  forall inp, step (extend defaultOptions three_chunks) inp s = None.
Proof.
  intros Hrun.
  destruct i1 as [|[|i1]]; [| |vm_compute in Hrun; discriminate Hrun].
  all: destruct i2 as [|[|i2]]; [| |vm_compute in Hrun; discriminate Hrun].
  all: destruct i3 as [|i3]; [|vm_compute in Hrun; discriminate Hrun].
  all: vm_compute in Hrun; injection Hrun as <-.
  all: split; [vm_compute; reflexivity|].
  all: split; [vm_compute; reflexivity|].
  all: split;
    [lazymatch goal with
     | |- exists t v, trace ?st = _ /\ _ =>
         exists (removelast (trace st)), (view_of st)
     end;
     split; [vm_compute; reflexivity | split; vm_compute; reflexivity]|].
  all: split; [vm_compute; reflexivity|].
  all: split; [vm_compute; reflexivity|].
  all: split; [vm_compute; reflexivity|].
  all: intros [i r| data |]; vm_compute; reflexivity.
Qed.

Lemma C6_witness :
  exists s,
    run (extend defaultOptions three_chunks)
        [Response 1 (Success (JObj 2)); Response 0 (Success JNull);
         Response 0 (Success (JObj 3))]
        (state_of (chunkatron three_chunks)) = Some s /\
    count (is_fired OnChunkSuccess) (trace s) = 3%nat /\
    count (is_fired OnChunkComplete) (trace s) = 3%nat /\
    count (is_fired OnFinished) (trace s) = 2%nat.
Proof.
  let t := eval vm_compute in
    (run (extend defaultOptions three_chunks)
         [Response 1 (Success (JObj 2)); Response 0 (Success JNull);
          Response 0 (Success (JObj 3))]
         (state_of (chunkatron three_chunks)))
  in match t with Some ?s => exists s end.
  split; [vm_compute; reflexivity|].
  match goal with |- count _ (trace ?s) = _ /\ _ =>
    destruct (C6_three_chunks_all_succeed
                1%nat (JObj 2) 0%nat JNull 0%nat (JObj 3) s)
      as (H1 & H2 & _); [vm_compute; reflexivity|]
  end.
  split; [exact H1|]. split; [exact H2|]. vm_compute; reflexivity.
Defined.

(** ** C7 *)

(** C7, as stated, fails: with both [chunks] and [chunksUrl] supplied the
    settings are accepted and the constructor does not throw. *)
Lemma C7_both_sources_counterexample :
  o_chunks both_sources <> None /\ o_chunksUrl both_sources <> None /\
  verifySettings (extend defaultOptions both_sources) = None /\
  ~ exists msg s, chunkatron both_sources = Thrown msg s.
Proof.
  split; [done|]. split; [done|]. split; [reflexivity|].
  intros (msg & s & H). vm_compute in H. discriminate H.
Qed.

(** C7, amended: the constructor requires at least one chunk source.  With
    [url] and [onChunkComplete] present, [verifySettings] throws (the
    chunk-source error) exactly when both [chunks] and [chunksUrl] are
    missing; a configuration that supplies one of them, or both, is
    accepted. *)
Theorem C7_at_least_one_chunk_source cfg :
  url cfg <> None ->
  onChunkComplete cfg <> HNull ->
  (verifySettings cfg
     = Some "Either the chunks or the chunksUrl must be provided"%string <->
   settings_chunks cfg = None /\ chunksUrl cfg = None) /\
  (verifySettings cfg = None <->
   settings_chunks cfg <> None \/ chunksUrl cfg <> None).
Proof.
  intros Hu Hc. rewrite verifySettings_eq.
  destruct (url cfg); [|done].
  destruct (onChunkComplete cfg); [done| |];
    destruct (settings_chunks cfg), (chunksUrl cfg); simpl;
    intuition congruence.
Qed.

Lemma C7_witness :
  (verifySettings (extend defaultOptions both_sources)
     = Some "Either the chunks or the chunksUrl must be provided"%string <->
   settings_chunks (extend defaultOptions both_sources) = None /\
   chunksUrl (extend defaultOptions both_sources) = None) /\
  (verifySettings (extend defaultOptions both_sources) = None <->
   settings_chunks (extend defaultOptions both_sources) <> None \/
   chunksUrl (extend defaultOptions both_sources) <> None).
Proof.
  apply (C7_at_least_one_chunk_source (extend defaultOptions both_sources));
    simpl; discriminate.
Defined.

(** ** C8 *)

(** C8, as stated, fails for a configuration without the optional hooks.
    With [onChunkError] and [onChunkGiveUp] left out and
    [maxDownloadRetries] 0, the one failure of chunk [[5]] makes the plugin
    drop the chunk for good without an error and without a hook that tells:
    the give-up branch of [downloadChunk] adds nothing to the trace, and the
    hooks fired in the whole run are those of the run in which the chunk
    succeeds. *)
Lemma C8_silent_give_up_counterexample :
  let cfg := extend defaultOptions silent in
  let s0 := state_of (chunkatron silent) in
  let s := set_chunkFailures {[Some 5 := 1]} (set_chunks [Some [5]] initial) in
  onChunkError cfg = HNull /\ onChunkGiveUp cfg = HNull /\
  given_up cfg s [5] = true /\
  downloadChunk cfg s = Done (set_chunks [] s) /\
  exists s1 s1',
    step cfg (Response 0 (Error (JStr "Gateway Timeout"))) s0 = Some (Done s1) /\
    chunks s1 = [] /\ pending s1 = [] /\
    labels (trace s1) = [("POST", [5]); ("onChunkComplete", [])]%string /\
    step cfg (Response 0 (Success (JObj 1))) s0 = Some (Done s1') /\
    labels (trace s1') = labels (trace s1).
Proof.
  intros cfg s0 s.
  do 3 (split; [reflexivity|]). split; [vm_compute; reflexivity|].
  let t := eval vm_compute in
    (state_of (default (Done initial)
       (step cfg (Response 0 (Error (JStr "Gateway Timeout"))) s0)))
  in pose (s1 := t).
  let t := eval vm_compute in
    (state_of (default (Done initial)
       (step cfg (Response 0 (Success (JObj 1))) s0)))
  in pose (s1' := t).
  exists s1, s1'.
  repeat (split; [vm_compute; reflexivity|]). vm_compute; reflexivity.
Qed.

(** C8, amended: a failure is reported through the hook that is there for it
    when that hook is supplied, and otherwise only where the code throws.
    - Missing configuration: the constructor throws.
    - A per-chunk transport error: [onChunkError] is called if it is a
      function; [callback] throws if it is neither a function nor null; if
      it is left out, nothing is called for the error.
    - Retry-ceiling exhaustion: [onChunkGiveUp] is called with the chunk if it
      is a function; [callback] throws if it is neither a function nor null;
      if it is left out, the chunk is dropped without a call and
      [downloadChunk] goes on with the rest of the queue.
    - Failure of the fetch of the chunk list: the [error] callback of the GET
      throws; nothing has been or will be requested after the GET, and no
      further turn of the event loop exists (no retry). *)
Theorem C8_failures_reported_when_hook_supplied :
  (forall o msg,
      verifySettings (extend defaultOptions o) = Some msg ->
      chunkatron o = Thrown msg initial) /\
  (forall cfg c error s,
      (onChunkError cfg = HFunction ->
       ajax_error cfg c error s
       = Done (emit (Fired OnChunkError
                       (if truthy error then Some error else None)
                       (view_of (record_failure c s)))
                    (record_failure c s))) /\
      (onChunkError cfg = HOther ->
       exists msg, ajax_error cfg c error s = Thrown msg (record_failure c s)) /\
      (onChunkError cfg = HNull ->
       ajax_error cfg c error s = Done (record_failure c s))) /\
  (forall cfg s c q',
      concurrentDownloads s < concurrentDownloadsMax cfg ->
      chunks s = Some c :: q' ->
      given_up cfg s c = true ->
      (onChunkGiveUp cfg = HFunction ->
       downloadChunk cfg s
       = downloadChunk cfg
           (emit (Fired OnChunkGiveUp (Some (JArr c))
                    (view_of (set_chunks q' s)))
                 (set_chunks q' s))) /\
      (onChunkGiveUp cfg = HOther ->
       exists msg, downloadChunk cfg s = Thrown msg (set_chunks q' s)) /\
      (onChunkGiveUp cfg = HNull ->
       downloadChunk cfg s = downloadChunk cfg (set_chunks q' s))) /\
  (forall o u,
      verifySettings (extend defaultOptions o) = None ->
      settings_chunks (extend defaultOptions o) = None ->
      chunksUrl (extend defaultOptions o) = Some u ->
      let s0 := emit (Get u (dataType (extend defaultOptions o)))
                     (set_fetching true initial) in
      chunkatron o = Done s0 /\
      step (extend defaultOptions o) ChunksFailed s0
      = Some (Thrown ("We were unable to download the chunks from the url provided: "
                      ++ u)%string
                     (set_fetching false s0)) /\
      trace (set_fetching false s0)
      = [Get u (dataType (extend defaultOptions o))] /\
      forall inp,
        step (extend defaultOptions o) inp (set_fetching false s0) = None).
Proof.
  split; [|split; [|split]].
  - intros o msg Hv. unfold chunkatron. cbv zeta. by rewrite Hv.
  - intros cfg c error s. rewrite ajax_error_eq.
    repeat split; intros ->; simpl; eauto.
  - intros cfg s c q' Hlt Hq Hyes. rewrite (downloadChunk_eq cfg s).
    destruct (Z.leb_spec (concurrentDownloadsMax cfg) (concurrentDownloads s));
      [lia|].
    rewrite Hq. cbv zeta.
    change (given_up cfg (set_chunks q' s) c) with (given_up cfg s c).
    rewrite Hyes. repeat split; intros ->; simpl; eauto.
  - intros o u Hv Hcs Hcu s0. split; [|split; [|split]].
    + unfold chunkatron. cbv zeta. by rewrite Hv, Hcs, Hcu.
    + unfold step. change (fetching s0) with true. cbv iota.
      rewrite Hcu. reflexivity.
    + reflexivity.
    + intros [i r| data |]; reflexivity.
Qed.

Lemma C8_witness :
  chunkatron from_url
  = Done (emit (Get "/chunks" "json") (set_fetching true initial)) /\
  forall inp,
    step (extend defaultOptions from_url) inp
      (set_fetching false
         (emit (Get "/chunks" "json") (set_fetching true initial))) = None.
Proof.
  destruct (proj2 (proj2 (proj2 C8_failures_reported_when_hook_supplied))
              from_url "/chunks"%string eq_refl eq_refl eq_refl)
    as (Hc & _ & _ & Hstop).
  split; [exact Hc | exact Hstop].
Defined.

(** ** C9 *)

(** C9: the failure counters are pooled by the first element of the chunk.
    For chunks [c] and [d] with [c[0] = d[0]], an error of the request of [c]
    raises the counter that decides, when [d] is dequeued, whether [d] is
    given up on.  So a chunk can be given up on without ever having failed:
    with chunks [[7; 1]] and [[7; 2]] and [maxDownloadRetries] 0, one
    failure of [[7; 1]] makes the plugin give up on [[7; 2]], which was never
    requested. *)
Theorem C9_failures_pooled_by_first_element :
  (forall cfg c d error s,
      head c = head d ->
      let n' := match chunkFailures s !! head c with
                | None => 1
                | Some n => n + 1
                end in
      let s' := state_of (ajax_error cfg c error s) in
      chunkFailures s' !! head d = Some n' /\
      given_up cfg s' d = (maxDownloadRetries cfg <? n') /\
      given_up cfg s' d = given_up cfg s' c) /\
  (exists s,
      run (extend defaultOptions pooled)
          [Response 0 (Error (JStr "Gateway Timeout"))]
          (state_of (chunkatron pooled)) = Some s /\
      maxDownloadRetries (extend defaultOptions pooled) = 0 /\
      count (is_post [7; 1]) (trace s) = 1%nat /\
      count (is_post [7; 2]) (trace s) = 0%nat /\
      count (is_fired OnChunkError) (trace s) = 1%nat /\
      given_up_chunks (trace s) = [[7; 2]; [7; 1]]).
Proof.
  split.
  - intros cfg c d error s Hcd n' s'.
    assert (chunkFailures s' !! head d = Some n') as Hn.
    { subst s'. unfold ajax_error. cbv zeta.
      match goal with |- context [callback ?h ?cb ?p ?s2] =>
        destruct (callback_fields h cb p s2) as (_ & -> & _)
      end.
      simpl. rewrite <- Hcd. by rewrite lookup_insert_eq. }
    split; [exact Hn|]. unfold given_up. rewrite <- Hcd at 2.
    by rewrite Hn.
  - let t := eval vm_compute in
      (run (extend defaultOptions pooled)
           [Response 0 (Error (JStr "Gateway Timeout"))]
           (state_of (chunkatron pooled)))
    in match t with Some ?s => exists s end.
    repeat (split; [vm_compute; reflexivity|]). vm_compute; reflexivity.
Qed.

Lemma C9_witness :
  let s' := state_of (ajax_error (extend defaultOptions pooled) [7; 1]
                        (JStr "Gateway Timeout") initial) in
  chunkFailures s' !! head [7; 2] = Some 1 /\
  given_up (extend defaultOptions pooled) s' [7; 2] = true.
Proof.
  intros s'.
  destruct (proj1 C9_failures_pooled_by_first_element
              (extend defaultOptions pooled) [7; 1] [7; 2]
              (JStr "Gateway Timeout") initial eq_refl)
    as (Hn & Hg & _).
  split; [exact Hn | exact Hg].
Defined.

(** ** C10 *)

(** C10, as stated, fails twice over.  Construction does not succeed for
    every configuration with both sources: with a string for [onFinished]
    the constructor sends the two chunks supplied and then throws, out of
    [callback], when the third call of [downloadChunk] finds the queue
    empty.  And downloading does not start for every such configuration:
    with [concurrentDownloadsMax] 0 the constructor returns without a
    request, and no turn of the event loop exists after it. *)
Lemma C10_construction_counterexample :
  (let cfg := extend defaultOptions both_sources_bad_hook in
   url cfg <> None /\ onChunkComplete cfg <> HNull /\
   settings_chunks cfg <> None /\ chunksUrl cfg <> None /\
   (exists s,
       chunkatron both_sources_bad_hook
       = Thrown "The callback must be a function (or null if you don't want one)" s) /\
   ~ exists s, chunkatron both_sources_bad_hook = Done s) /\
  (let cfg := extend defaultOptions both_sources_no_slot in
   url cfg <> None /\ onChunkComplete cfg <> HNull /\
   settings_chunks cfg <> None /\ chunksUrl cfg <> None /\
   chunkatron both_sources_no_slot
   = Done (set_chunks [Some [1]; Some [2]] initial) /\
   trace (state_of (chunkatron both_sources_no_slot)) = [] /\
   forall inp,
     step cfg inp (state_of (chunkatron both_sources_no_slot)) = None).
Proof.
  split; cbv zeta.
  - do 4 (split; [discriminate|]). split.
    + eexists. vm_compute. reflexivity.
    + intros [s H]. vm_compute in H. discriminate H.
  - do 4 (split; [discriminate|]).
    split; [reflexivity|]. split; [reflexivity|].
    intros [i r| data |]; reflexivity.
Qed.

(** C10, amended: when both [chunks] and [chunksUrl] are supplied (and [url]
    and [onChunkComplete] are present), the settings are accepted and the
    constructor goes straight to [start] on the supplied chunks: it returns
    normally when every hook is a function or null, its first act is the
    POST of the first supplied chunk when the list begins with a chunk and
    the cap is positive, and in no reachable state has a GET of [chunksUrl]
    been issued or is one in flight. *)
Theorem C10_supplied_chunks_take_precedence o cs u :
  url (extend defaultOptions o) <> None ->
  onChunkComplete (extend defaultOptions o) <> HNull ->
  settings_chunks (extend defaultOptions o) = Some cs ->
  chunksUrl (extend defaultOptions o) = Some u ->
  verifySettings (extend defaultOptions o) = None /\
  chunkatron o = start (extend defaultOptions o) (Some cs) initial /\
  (hooks_typed (extend defaultOptions o) -> exists s, chunkatron o = Done s) /\
  (forall c cs',
      cs = Some c :: cs' ->
      0 < concurrentDownloadsMax (extend defaultOptions o) ->
      exists rest,
        trace (state_of (chunkatron o))
        = Post (url (extend defaultOptions o))
               (dataType (extend defaultOptions o)) c :: rest) /\
  (forall s, reachable o s -> fetching s = false /\ no_get (trace s)).
Proof.
  intros Hu Hc Hcs Hcu.
  assert (verifySettings (extend defaultOptions o) = None) as Hv.
  { rewrite verifySettings_eq, Hcs.
    destruct (url (extend defaultOptions o)); [|done].
    by destruct (onChunkComplete (extend defaultOptions o)). }
  assert (chunkatron o = start (extend defaultOptions o) (Some cs) initial)
    as Hstart.
  { unfold chunkatron. cbv zeta. by rewrite Hv, Hcs. }
  assert (forall s, reachable o s -> fetching s = false /\ no_get (trace s))
    as Hquiet.
  { apply (reachable_settled no_get); [apply no_get_emit|]. rewrite Hstart.
    apply start_settled; [apply no_get_emit|]. split; [done|constructor]. }
  split; [done|]. split; [done|]. rewrite Hstart. clear Hstart.
  split; [|split; [|done]]. clear Hquiet.
  all: generalize dependent (extend defaultOptions o);
    intros cfg Hu Hc Hcs Hcu Hv.
  - intros Hty. simpl. by apply times_downloadChunk_returns.
  - intros c cs' -> Hcap. simpl.
    destruct (Z.to_nat (concurrentDownloadsMax cfg)) as [|n] eqn:Hn; [lia|].
    simpl. unfold downloadChunk at 1. simpl.
    destruct (Z.leb_spec (concurrentDownloadsMax cfg) 0) as [|_]; [lia|].
    unfold given_up. simpl. rewrite lookup_empty. simpl.
    match goal with |- context [times n _ ?s1] =>
      destruct (times_downloadChunk_extends cfg n s1) as [new Hnew]
    end.
    rewrite Hnew. simpl. eauto.
Qed.

Lemma C10_witness :
  verifySettings (extend defaultOptions both_sources) = None /\
  (exists s, chunkatron both_sources = Done s) /\
  (exists rest,
      trace (state_of (chunkatron both_sources))
      = Post (Some "/report"%string) "json" [1] :: rest).
Proof.
  destruct (C10_supplied_chunks_take_precedence
              both_sources [Some [1]; Some [2]] "/chunks"%string)
    as (Hv & _ & Hdone & Hpost & _);
    [discriminate | discriminate | reflexivity | reflexivity |].
  split; [exact Hv|]. split.
  - apply Hdone. repeat split; discriminate.
  - apply (Hpost [1] [Some [2]]); [reflexivity | reflexivity].
Defined.

(** * Further properties of the scheduler *)

(** ** What a turn of the event loop is *)

Lemma step_response cfg i r s c :
  pending s !! i = Some c ->
  step cfg (Response i r) s
  = Some (match r with
          | Success data =>
              ajax_success cfg data (set_pending (delete i (pending s)) s)
          | Error error =>
              ajax_error cfg c error (set_pending (delete i (pending s)) s)
          end >>> ajax_complete cfg).
Proof. intros Hi. unfold step. by rewrite Hi. Qed.

Lemma step_response_inv cfg i r s out :
  step cfg (Response i r) s = Some out ->
  exists c, pending s !! i = Some c.
Proof. unfold step. destruct (pending s !! i); [eauto|done]. Qed.

(** ** Entries and chunks *)

Lemma chunks_of_app q1 q2 : chunks_of (q1 ++ q2) = chunks_of q1 ++ chunks_of q2.
Proof. apply omap_app. Qed.

Lemma chunks_of_fmap (l : list chunk) : chunks_of (Some <$> l) = l.
Proof.
  unfold chunks_of. induction l as [|c l IH]; [done|].
  simpl. f_equal. exact IH.
Qed.

Lemma chunks_of_length q : (length (chunks_of q) <= length q)%nat.
Proof. unfold chunks_of. induction q as [|[c|] q IH]; cbn; lia. Qed.

Lemma chunks_of_length_null_free q :
  null_free q -> length (chunks_of q) = length q.
Proof.
  unfold chunks_of. induction 1 as [|e q He _ IH]; [done|].
  destruct He as [c ->]. simpl. f_equal. exact IH.
Qed.

Lemma run_reachable o inps s s' :
  reachable o s ->
  run (extend defaultOptions o) inps s = Some s' ->
  reachable o s'.
Proof.
  revert s. induction inps as [|inp inps IH]; intros s Hs Hrun; simpl in Hrun.
  - by injection Hrun as <-.
  - destruct (step (extend defaultOptions o) inp s) as [out|] eqn:Hstep; [|done].
    apply (IH (state_of out)); [|done]. by apply (reachable_step o s inp).
Qed.

(** A property that every turn of the event loop keeps, as long as no null
    entry is loaded, holds at the end of a run. *)
Lemma run_invariant o (P : state -> Prop) inps s s' :
  (forall s0 inp out,
      reachable o s0 -> loads_no_null inp -> P s0 ->
      step (extend defaultOptions o) inp s0 = Some out -> P (state_of out)) ->
  Forall loads_no_null inps ->
  reachable o s -> P s ->
  run (extend defaultOptions o) inps s = Some s' ->
  P s'.
Proof.
  intros Hstep Hinps. revert s.
  induction Hinps as [|inp inps Hinp _ IH]; intros s Hs HP Hrun; simpl in Hrun.
  - by injection Hrun as <-.
  - destruct (step (extend defaultOptions o) inp s) as [out|] eqn:Hout; [|done].
    apply (IH (state_of out)); [|by apply (Hstep s inp)|done].
    by apply (reachable_step o s inp).
Qed.

(** [downloadChunk] leaves the failure counters alone. *)
Lemma downloadChunk_chunkFailures cfg s :
  chunkFailures (state_of (downloadChunk cfg s)) = chunkFailures s.
Proof.
  pattern s, (downloadChunk cfg s). apply downloadChunk_induction; clear s.
  - done.
  - intros s _ _.
    by destruct (callback_fields OnFinished (onFinished cfg) JUndefined s)
      as (_ & -> & _).
  - intros s q' _ _.
    by destruct (callback_fields OnFinished (onFinished cfg) JUndefined
                   (set_chunks q' s)) as (_ & -> & _).
  - done.
  - intros s c q' msg s1 _ _ _ Hcb.
    destruct (callback_fields OnChunkGiveUp (onChunkGiveUp cfg) (JArr c)
                (set_chunks q' s)) as (_ & Hf & _).
    by rewrite Hcb in Hf.
  - intros s c q' s1 _ _ _ Hcb ->.
    destruct (callback_fields OnChunkGiveUp (onChunkGiveUp cfg) (JArr c)
                (set_chunks q' s)) as (_ & Hf & _).
    by rewrite Hcb in Hf.
Qed.

(** ** No chunk is invented or sent twice at a time *)

Lemma downloadChunk_submseteq cfg s :
  held (state_of (downloadChunk cfg s)) ⊆+ held s.
Proof.
  pattern s, (downloadChunk cfg s). apply downloadChunk_induction; clear s.
  - done.
  - intros s _ _. unfold held.
    by destruct (callback_fields OnFinished (onFinished cfg) JUndefined s)
      as (_ & _ & -> & -> & _).
  - intros s q' _ Hq. unfold held.
    destruct (callback_fields OnFinished (onFinished cfg) JUndefined
                (set_chunks q' s)) as (_ & _ & -> & -> & _).
    simpl. rewrite Hq. by apply submseteq_cons.
  - intros s c q' _ Hq _. unfold held. simpl. rewrite Hq, fmap_app.
    apply Permutation_submseteq.
    change (Some <$> [c]) with [Some c].
    rewrite (assoc (++)), <- Permutation_cons_append. done.
  - intros s c q' msg s1 _ Hq _ Hcb.
    destruct (callback_fields OnChunkGiveUp (onChunkGiveUp cfg) (JArr c)
                (set_chunks q' s)) as (_ & _ & Hc & Hp & _).
    rewrite Hcb in Hc, Hp. unfold held. simpl in *. rewrite Hc, Hp, Hq.
    by apply submseteq_cons.
  - intros s c q' s1 _ Hq _ Hcb IH.
    destruct (callback_fields OnChunkGiveUp (onChunkGiveUp cfg) (JArr c)
                (set_chunks q' s)) as (_ & _ & Hc & Hp & _).
    rewrite Hcb in Hc, Hp. rewrite IH. unfold held. simpl in *.
    rewrite Hc, Hp, Hq. by apply submseteq_cons.
Qed.

Lemma ajax_complete_submseteq cfg s :
  held (state_of (ajax_complete cfg s)) ⊆+ held s.
Proof.
  unfold ajax_complete. cbv zeta.
  apply (and_then_preserves (fun s' => held s' ⊆+ held s)).
  - unfold held.
    match goal with |- context [callback ?h ?cb ?p ?s2] =>
      destruct (callback_fields h cb p s2) as (_ & _ & -> & -> & _)
    end. done.
  - intros s' Hs'. by rewrite downloadChunk_submseteq.
Qed.

Lemma step_response_submseteq cfg i r s out :
  step cfg (Response i r) s = Some out ->
  held (state_of out) ⊆+ held s.
Proof.
  intros Hstep. destruct (step_response_inv _ _ _ _ _ Hstep) as [c Hi].
  rewrite (step_response cfg i r s c Hi) in Hstep. injection Hstep as <-.
  assert (chunks s ++ Some c :: (Some <$> delete i (pending s)) ≡ₚ held s)
    as Hperm.
  { unfold held. rewrite (delete_Permutation _ _ _ Hi) at 2. done. }
  apply (and_then_inv
           (fun s' => held s'
                      ⊆+ chunks s ++ Some c :: (Some <$> delete i (pending s)))).
  - unfold held.
    destruct r as [data|error]; unfold ajax_success, ajax_error; cbv zeta;
      match goal with |- context [callback ?h ?cb ?p ?s2] =>
        destruct (callback_fields h cb p s2) as (_ & _ & -> & -> & _)
      end; simpl.
    + apply submseteq_skips_l. by apply submseteq_cons.
    + apply Permutation_submseteq.
      by rewrite <- (assoc (++)).
  - intros s' Hs'. by rewrite <- Hperm.
  - intros s' Hs'. rewrite ajax_complete_submseteq. by rewrite <- Hperm.
Qed.

Lemma run_responses_submseteq cfg inps s s' :
  forallb is_response inps = true ->
  run cfg inps s = Some s' ->
  held s' ⊆+ held s.
Proof.
  revert s. induction inps as [|inp inps IH]; intros s Hall Hrun; simpl in *.
  - by injection Hrun as <-.
  - apply andb_prop in Hall as [Hinp Hall].
    destruct inp as [i r| |]; try done.
    destruct (step cfg (Response i r) s) as [out|] eqn:Hstep; [|done].
    rewrite (IH _ Hall Hrun). by apply (step_response_submseteq cfg i r).
Qed.

(** The constructor, for supplied chunks: it throws at once or it is
    [start] on them. *)
Lemma chunkatron_supplied o cs :
  settings_chunks (extend defaultOptions o) = Some cs ->
  (exists msg, chunkatron o = Thrown msg initial) \/
  chunkatron o = start (extend defaultOptions o) (Some cs) initial.
Proof.
  intros Hcs. unfold chunkatron. cbv zeta.
  destruct (verifySettings _); [eauto|]. rewrite Hcs. by right.
Qed.

Lemma reachable_supplied_not_fetching o cs s :
  settings_chunks (extend defaultOptions o) = Some cs ->
  reachable o s -> fetching s = false.
Proof.
  intros Hcs Hs.
  apply (reachable_settled (fun _ => True) o); [done| |done].
  destruct (chunkatron_supplied o cs Hcs) as [[msg ->]| ->]; [done|].
  by apply start_settled.
Qed.

(** X1: the plugin never invents a chunk and never holds one more often
    than it was given.  With the chunks supplied in the configuration, the
    queue and the requests in flight together are, in every reachable state,
    a part of the supplied entries, counted with repetitions; and whatever
    the starting point, answers of the network never add to the queue and the
    requests in flight taken together. *)
Theorem X1_no_chunk_invented :
  (forall o cs s,
      settings_chunks (extend defaultOptions o) = Some cs ->
      reachable o s ->
      held s ⊆+ cs) /\
  (forall cfg inps s s',
      forallb is_response inps = true ->
      run cfg inps s = Some s' ->
      held s' ⊆+ held s).
Proof.
  split; [|apply run_responses_submseteq].
  intros o cs s Hcs Hs.
  pose proof (reachable_supplied_not_fetching o cs) as Hnf.
  induction Hs as [|s inp out Hs IH Hstep].
  - destruct (chunkatron_supplied o cs Hcs) as [[msg ->]| ->]; simpl.
    + apply submseteq_nil_l.
    + apply (times_preserves (fun s' => held s' ⊆+ cs)).
      * intros s' Hs'. by rewrite downloadChunk_submseteq.
      * unfold held. simpl. by rewrite app_nil_r.
  - specialize (Hnf s Hcs Hs). destruct inp as [i r| data |].
    + rewrite <- IH.
      by apply (step_response_submseteq (extend defaultOptions o) i r).
    + simpl in Hstep. by rewrite Hnf in Hstep.
    + simpl in Hstep. by rewrite Hnf in Hstep.
Qed.

Lemma X1_witness :
  chunks (state_of (chunkatron three_chunks))
    ++ (Some <$> pending (state_of (chunkatron three_chunks)))
  ⊆+ [Some [1]; Some [2]; Some [3]].
Proof.
  apply (proj1 X1_no_chunk_invented three_chunks [Some [1]; Some [2]; Some [3]]);
    [reflexivity | constructor].
Defined.

(** ** The failure counters *)

Lemma ajax_complete_chunkFailures cfg s :
  chunkFailures (state_of (ajax_complete cfg s)) = chunkFailures s.
Proof.
  unfold ajax_complete. cbv zeta.
  apply (and_then_preserves (fun s' => chunkFailures s' = chunkFailures s)).
  - match goal with |- context [callback ?h ?cb ?p ?s2] =>
      by destruct (callback_fields h cb p s2) as (_ & -> & _)
    end.
  - intros s' Hs'. by rewrite downloadChunk_chunkFailures.
Qed.

Lemma step_response_chunkFailures cfg i r s out c :
  pending s !! i = Some c ->
  step cfg (Response i r) s = Some out ->
  chunkFailures (state_of out)
  = match r with
    | Success _ => chunkFailures s
    | Error _ =>
        <[head c := match chunkFailures s !! head c with
                    | None => 1
                    | Some n => n + 1
                    end]> (chunkFailures s)
    end.
Proof.
  intros Hi Hstep. rewrite (step_response cfg i r s c Hi) in Hstep.
  injection Hstep as <-.
  apply (and_then_preserves (fun s' => chunkFailures s' = _)).
  - destruct r as [data|error]; unfold ajax_success, ajax_error; cbv zeta;
      match goal with |- context [callback ?h ?cb ?p ?s2] =>
        by destruct (callback_fields h cb p s2) as (_ & -> & _)
      end.
  - intros s' <-. apply ajax_complete_chunkFailures.
Qed.

(** X2: the failure counters move only when a request fails.  The turn of
    the event loop for a success leaves every counter as it is (a success
    resets nothing); the turn for an error of chunk [c] raises the counter
    under [c[0]] by one, or sets it to 1, and leaves the others; and every
    counter on record in a reachable state is at least 1. *)
Theorem X2_failure_counters :
  (forall cfg i r s out c,
      pending s !! i = Some c ->
      step cfg (Response i r) s = Some out ->
      chunkFailures (state_of out)
      = match r with
        | Success _ => chunkFailures s
        | Error _ =>
            <[head c := match chunkFailures s !! head c with
                        | None => 1
                        | Some n => n + 1
                        end]> (chunkFailures s)
        end) /\
  (forall o s k n,
      reachable o s -> chunkFailures s !! k = Some n -> 1 <= n).
Proof.
  split; [apply step_response_chunkFailures|].
  intros o s k n Hs. revert k n.
  assert (forall cfg cs s0,
            (forall k n, chunkFailures s0 !! k = Some n -> 1 <= n) ->
            forall k n,
              chunkFailures (state_of (start cfg cs s0)) !! k = Some n ->
              1 <= n) as Hstart.
  { intros cfg [cs|] s0 H0; simpl.
    - apply (times_preserves
               (fun s' => forall k n, chunkFailures s' !! k = Some n -> 1 <= n));
        [|done].
      intros s' Hs' k n. rewrite downloadChunk_chunkFailures. apply Hs'.
    - by destruct (0 <? concurrentDownloadsMax cfg). }
  induction Hs as [|s inp out Hs IH Hstep].
  - unfold chunkatron. cbv zeta. destruct (verifySettings _); [done|].
    destruct (settings_chunks _) as [cs|].
    + by apply Hstart.
    + destruct (chunksUrl _); [done|]. by apply Hstart.
  - destruct inp as [i r| data |].
    + destruct (step_response_inv _ _ _ _ _ Hstep) as [c Hi].
      rewrite (step_response_chunkFailures _ i r s out c Hi Hstep).
      destruct r as [data|error]; [exact IH|].
      intros k n. destruct (decide (head c = k)) as [<-|Hne].
      * rewrite lookup_insert_eq. intros [= <-].
        destruct (chunkFailures s !! head c) as [m|] eqn:Hm; [|lia].
        specialize (IH _ _ Hm). lia.
      * rewrite lookup_insert_ne by done. apply IH.
    + unfold step in Hstep. destruct (fetching s); [|done].
      injection Hstep as <-.
      by apply (Hstart (extend defaultOptions o) (Some data)
                  (set_fetching false s)).
    + unfold step in Hstep. destruct (fetching s); [|done].
      by injection Hstep as <-.
Qed.

Lemma X2_witness :
  chunkFailures
    (state_of (default (Done initial)
                 (step (extend defaultOptions always_failing)
                    (Response 0 (Error (JStr "Not Found")))
                    (state_of (chunkatron always_failing)))))
  = {[Some 5 := 1]}.
Proof.
  etrans;
    [apply (proj1 X2_failure_counters (extend defaultOptions always_failing)
              0%nat (Error (JStr "Not Found"))
              (state_of (chunkatron always_failing))
              (default (Done initial)
                 (step (extend defaultOptions always_failing)
                    (Response 0 (Error (JStr "Not Found")))
                    (state_of (chunkatron always_failing))))
              [5]); vm_compute; reflexivity
    | vm_compute; reflexivity].
Defined.

(** ** A failed chunk under the ceiling stays *)

Lemma given_up_ext cfg s1 s2 c :
  chunkFailures s1 = chunkFailures s2 -> given_up cfg s1 c = given_up cfg s2 c.
Proof. unfold given_up. by intros ->. Qed.

(** A chunk that is in flight, or waiting and not over the ceiling, is so
    after a call of [downloadChunk] too. *)
Lemma downloadChunk_keeps cfg d s :
  d ∈ pending s \/ (Some d ∈ chunks s /\ given_up cfg s d = false) ->
  d ∈ pending (state_of (downloadChunk cfg s)) \/
  (Some d ∈ chunks (state_of (downloadChunk cfg s)) /\
   given_up cfg (state_of (downloadChunk cfg s)) d = false).
Proof.
  pattern s, (downloadChunk cfg s). apply downloadChunk_induction; clear s.
  - done.
  - intros s _ _ H.
    destruct (callback_fields OnFinished (onFinished cfg) JUndefined s)
      as (_ & Hf & -> & -> & _).
    by rewrite (given_up_ext cfg _ s d Hf).
  - intros s q' _ Hq H.
    destruct (callback_fields OnFinished (onFinished cfg) JUndefined
                (set_chunks q' s)) as (_ & Hf & -> & -> & _).
    rewrite (given_up_ext cfg _ s d Hf). simpl.
    destruct H as [H|[H Hd]]; [by left|]. right. split; [|done].
    rewrite Hq in H. apply elem_of_cons in H as [?|H]; done.
  - intros s c q' _ Hq Hno [H|[H Hd]]; simpl.
    + left. apply elem_of_app. by left.
    + rewrite Hq in H. apply elem_of_cons in H as [[= ->]|H].
      * left. apply elem_of_app. right. by apply list_elem_of_singleton.
      * by right.
  - intros s c q' msg s1 _ Hq Hyes Hcb H.
    destruct (callback_fields OnChunkGiveUp (onChunkGiveUp cfg) (JArr c)
                (set_chunks q' s)) as (_ & Hf & Hc & Hp & _).
    rewrite Hcb in Hf, Hc, Hp. simpl in *.
    rewrite (given_up_ext cfg s1 s d Hf), Hc, Hp.
    destruct H as [H|[H Hd]]; [by left|]. right. split; [|done].
    rewrite Hq in H. apply elem_of_cons in H as [[= ->]|H]; [congruence|done].
  - intros s c q' s1 _ Hq Hyes Hcb IH H. apply IH.
    destruct (callback_fields OnChunkGiveUp (onChunkGiveUp cfg) (JArr c)
                (set_chunks q' s)) as (_ & Hf & Hc & Hp & _).
    rewrite Hcb in Hf, Hc, Hp. simpl in *.
    rewrite (given_up_ext cfg s1 s d Hf), Hc, Hp.
    destruct H as [H|[H Hd]]; [by left|]. right. split; [|done].
    rewrite Hq in H. apply elem_of_cons in H as [[= ->]|H]; [congruence|done].
Qed.

(** X3: a chunk whose request fails stays in the plugin as long as its
    counter has not passed the ceiling.  If the counter under [c[0]],
    raised for this failure, is at most [maxDownloadRetries], then after the
    turn of the event loop [c] is waiting in the queue or in flight again,
    whatever the hooks do. *)
Theorem X3_failed_chunk_is_kept cfg i error s out c :
  pending s !! i = Some c ->
  match chunkFailures s !! head c with
  | None => 1
  | Some n => n + 1
  end <= maxDownloadRetries cfg ->
  step cfg (Response i (Error error)) s = Some out ->
  Some c ∈ chunks (state_of out) \/ c ∈ pending (state_of out).
Proof.
  intros Hi Hle Hstep. rewrite (step_response cfg i _ s c Hi) in Hstep.
  injection Hstep as <-.
  set (P := fun s' : state =>
              c ∈ pending s' \/
              (Some c ∈ chunks s' /\ given_up cfg s' c = false)).
  assert (forall s', P s' -> Some c ∈ chunks s' \/ c ∈ pending s') as HPQ.
  { intros s' [H|[H _]]; auto. }
  apply (and_then_inv P); [|exact HPQ|].
  - unfold ajax_error. cbv zeta.
    match goal with |- context [callback ?h ?cb ?p ?s2] =>
      destruct (callback_fields h cb p s2) as (_ & Hf & Hc & _);
      unfold P; rewrite (given_up_ext cfg _ s2 c Hf), Hc
    end.
    right. simpl. split.
    + apply elem_of_app. right. by apply list_elem_of_singleton.
    + unfold given_up. simpl. rewrite lookup_insert_eq. by apply Z.ltb_ge.
  - intros s' Hs'. apply HPQ. unfold ajax_complete. cbv zeta.
    apply (and_then_preserves P); [|intros s2; apply downloadChunk_keeps].
    match goal with |- context [callback ?h ?cb ?p ?s2] =>
      destruct (callback_fields h cb p s2) as (_ & Hf & Hc & Hp & _);
      unfold P; rewrite (given_up_ext cfg _ s2 c Hf), Hc, Hp
    end.
    exact Hs'.
Qed.

Lemma X3_witness :
  Some [5] ∈ chunks (state_of (default (Done initial)
                 (step (extend defaultOptions always_failing)
                    (Response 0 (Error (JStr "Not Found")))
                    (state_of (chunkatron always_failing))))) \/
  [5] ∈ pending (state_of (default (Done initial)
                 (step (extend defaultOptions always_failing)
                    (Response 0 (Error (JStr "Not Found")))
                    (state_of (chunkatron always_failing))))).
Proof.
  apply (X3_failed_chunk_is_kept (extend defaultOptions always_failing)
           0%nat (JStr "Not Found") (state_of (chunkatron always_failing))
           (default (Done initial)
              (step (extend defaultOptions always_failing)
                 (Response 0 (Error (JStr "Not Found")))
                 (state_of (chunkatron always_failing))))
           [5]);
    [vm_compute; reflexivity | vm_compute; discriminate
    | vm_compute; reflexivity].
Defined.

(** ** Every run ends *)

Lemma sum_list_with_le {A} (f g : A -> nat) l :
  (forall x, (f x <= g x)%nat) ->
  (sum_list_with f l <= sum_list_with g l)%nat.
Proof.
  intros Hfg. induction l as [|x l IH]; simpl; [lia|].
  specialize (Hfg x). lia.
Qed.

Lemma sum_list_with_delete {A} (f : A -> nat) l i x :
  l !! i = Some x ->
  sum_list_with f l = (f x + sum_list_with f (delete i l))%nat.
Proof.
  revert i. induction l as [|y l IH]; intros [|i] Hi; simpl in *; try done.
  - by injection Hi as ->.
  - rewrite (IH i Hi). lia.
Qed.

Lemma given_up_budget cfg s c :
  given_up cfg s c = false -> (1 <= budget cfg (chunkFailures s) c)%nat.
Proof.
  unfold given_up, budget. destruct (chunkFailures s !! head c) as [n|].
  - intros H%Z.ltb_ge. lia.
  - lia.
Qed.

(** One more failure on record never raises a weight, and the chunk that
    failed weighs less in the queue than it did in flight. *)
Lemma weight_after_failure cfg f c d :
  let f' := <[head c := match f !! head c with
                        | None => 1
                        | Some n => n + 1
                        end]> f in
  (queue_weight cfg f' d <= queue_weight cfg f d)%nat /\
  (flight_weight cfg f' d <= flight_weight cfg f d)%nat /\
  (queue_weight cfg f' c < flight_weight cfg f c)%nat.
Proof.
  intros f'. subst f'. unfold queue_weight, flight_weight, budget.
  rewrite lookup_insert_eq.
  destruct (decide (head c = head d)) as [<-|Hne].
  - rewrite lookup_insert_eq. destruct (f !! head c); lia.
  - rewrite lookup_insert_ne by done. destruct (f !! head c); lia.
Qed.

Lemma callback_potential cfg h cb params s :
  potential cfg (state_of (callback h cb params s)) = potential cfg s.
Proof.
  destruct (callback_fields h cb params s) as (_ & Hf & Hc & Hp & _).
  unfold potential. by rewrite Hf, Hc, Hp.
Qed.

Lemma downloadChunk_potential cfg s :
  (potential cfg (state_of (downloadChunk cfg s)) <= potential cfg s)%nat.
Proof.
  assert (forall s0 c q',
            chunks s0 = Some c :: q' ->
            (potential cfg (state_of (callback OnChunkGiveUp (onChunkGiveUp cfg)
                                        (JArr c) (set_chunks q' s0)))
             <= potential cfg s0)%nat) as Hgive.
  { intros s0 c q' Hq. rewrite callback_potential. unfold potential. simpl.
    rewrite Hq. change (chunks_of (Some c :: q')) with (c :: chunks_of q').
    simpl. lia. }
  pattern s, (downloadChunk cfg s). apply downloadChunk_induction; clear s.
  - done.
  - intros s _ _. by rewrite callback_potential.
  - intros s q' _ Hq. rewrite callback_potential. unfold potential. simpl.
    rewrite Hq. change (chunks_of (None :: q')) with (chunks_of q'). done.
  - intros s c q' _ Hq Hno. apply given_up_budget in Hno.
    unfold potential. simpl. rewrite Hq, sum_list_with_app.
    change (chunks_of (Some c :: q')) with (c :: chunks_of q'). simpl.
    unfold queue_weight, flight_weight. lia.
  - intros s c q' msg s1 _ Hq _ Hcb.
    specialize (Hgive s c q' Hq). by rewrite Hcb in Hgive.
  - intros s c q' s1 _ Hq _ Hcb IH. etrans; [exact IH|].
    specialize (Hgive s c q' Hq). by rewrite Hcb in Hgive.
Qed.

Lemma ajax_complete_potential cfg s :
  (potential cfg (state_of (ajax_complete cfg s)) <= potential cfg s)%nat.
Proof.
  unfold ajax_complete. cbv zeta.
  apply (and_then_preserves
           (fun s' => (potential cfg s' <= potential cfg s)%nat)).
  - by rewrite callback_potential.
  - intros s' Hs'. etrans; [apply downloadChunk_potential|done].
Qed.

Lemma step_response_potential cfg i r s out :
  step cfg (Response i r) s = Some out ->
  (potential cfg (state_of out) < potential cfg s)%nat.
Proof.
  intros Hstep. destruct (step_response_inv _ _ _ _ _ Hstep) as [c Hi].
  rewrite (step_response cfg i r s c Hi) in Hstep. injection Hstep as <-.
  apply (and_then_inv
           (fun s' => (potential cfg s' < potential cfg s)%nat)); [|done|].
  - destruct r as [data|error]; unfold ajax_success, ajax_error; cbv zeta;
      rewrite callback_potential; unfold potential; simpl;
      rewrite (sum_list_with_delete _ (pending s) i c Hi).
    + unfold flight_weight. lia.
    + rewrite chunks_of_app, sum_list_with_app.
      change (chunks_of [Some c]) with [c]. simpl.
      set (f' := <[head c := _]> (chunkFailures s)).
      pose proof (weight_after_failure cfg (chunkFailures s) c) as Hw.
      cbv zeta in Hw. fold f' in Hw.
      destruct (Hw c) as (_ & _ & Hc).
      assert ((sum_list_with (queue_weight cfg f') (chunks_of (chunks s))
               <= sum_list_with (queue_weight cfg (chunkFailures s))
                    (chunks_of (chunks s)))%nat) as H1.
      { apply sum_list_with_le. intros d. by destruct (Hw d) as (Hd & _). }
      assert ((sum_list_with (flight_weight cfg f') (delete i (pending s))
               <= sum_list_with (flight_weight cfg (chunkFailures s))
                    (delete i (pending s)))%nat) as H2.
      { apply sum_list_with_le. intros d. by destruct (Hw d) as (_ & Hd & _). }
      lia.
  - intros s' Hs'. eapply Nat.le_lt_trans; [apply ajax_complete_potential|done].
Qed.

Lemma run_potential cfg inps s s' :
  fetching s = false ->
  run cfg inps s = Some s' ->
  (length inps + potential cfg s' <= potential cfg s)%nat.
Proof.
  revert s. induction inps as [|inp inps IH]; intros s Hf Hrun; simpl in *.
  - injection Hrun as <-. lia.
  - destruct (step cfg inp s) as [out|] eqn:Hstep; [|done].
    destruct inp as [i r| data |].
    + pose proof (step_response_potential cfg i r s out Hstep).
      assert (fetching (state_of out) = false) as Hf'.
      { by apply (step_settled (fun _ => True) (fun _ _ _ _ => I)
                    cfg (Response i r) s out). }
      specialize (IH _ Hf' Hrun). lia.
    + unfold step in Hstep. by rewrite Hf in Hstep.
    + unfold step in Hstep. by rewrite Hf in Hstep.
Qed.

(** X4: the scheduler always comes to an end.  Every answer of the network
    makes [potential] smaller, so that a run of answers is no longer than the
    potential it starts from; and for [n] supplied chunks the event loop has
    at most [n * (2 * max 1 (maxDownloadRetries + 1) + 1)] turns, whatever
    the answers are and whatever the hooks do. *)
Theorem X4_every_run_ends :
  (forall cfg i r s out,
      step cfg (Response i r) s = Some out ->
      (potential cfg (state_of out) < potential cfg s)%nat) /\
  (forall o cs inps s',
      settings_chunks (extend defaultOptions o) = Some cs ->
      run (extend defaultOptions o) inps (state_of (chunkatron o)) = Some s' ->
      (length inps
       <= length (chunks_of cs)
          * (2 * Z.to_nat
                   (Z.max 1 (maxDownloadRetries (extend defaultOptions o) + 1))
             + 1))%nat).
Proof.
  split; [apply step_response_potential|].
  intros o cs inps s' Hcs Hrun.
  assert (fetching (state_of (chunkatron o)) = false) as Hf.
  { apply (reachable_supplied_not_fetching o cs _ Hcs). constructor. }
  pose proof (run_potential _ _ _ _ Hf Hrun) as Hlen.
  assert (potential (extend defaultOptions o) (state_of (chunkatron o))
          <= length (chunks_of cs)
             * (2 * Z.to_nat
                      (Z.max 1 (maxDownloadRetries (extend defaultOptions o) + 1))
                + 1))%nat as Hpot; [|lia].
  destruct (chunkatron_supplied o cs Hcs) as [[msg ->]| ->].
  - unfold potential. simpl. lia.
  - clear. generalize (extend defaultOptions o). intros cfg. unfold start.
    set (K := (2 * Z.to_nat (Z.max 1 (maxDownloadRetries cfg + 1)) + 1)%nat).
    apply (times_preserves
             (fun s => (potential cfg s <= length (chunks_of cs) * K)%nat)).
    + intros s Hs. etrans; [apply downloadChunk_potential|done].
    + unfold potential. simpl. rewrite Nat.add_0_r.
      induction (chunks_of cs) as [|c l IH]; [simpl; lia|].
      change (sum_list_with (queue_weight cfg ∅) (c :: l))
        with (queue_weight cfg ∅ c + sum_list_with (queue_weight cfg ∅) l)%nat.
      change (length (c :: l) * K)%nat with (K + length l * K)%nat.
      assert (queue_weight cfg ∅ c = K) as ->; [|lia].
      unfold queue_weight, budget. by rewrite lookup_empty.
Qed.

Lemma X4_witness :
  (3 <= 1 * (2 * Z.to_nat (Z.max 1 (2 + 1)) + 1))%nat.
Proof.
  apply (proj2 X4_every_run_ends always_failing [Some [5]]
           [Response 0 (Error JNull); Response 0 (Error JNull);
            Response 0 (Error JNull)]
           (default initial
              (run (extend defaultOptions always_failing)
                 [Response 0 (Error JNull); Response 0 (Error JNull);
                  Response 0 (Error JNull)]
                 (state_of (chunkatron always_failing)))));
    [reflexivity | vm_compute; reflexivity].
Defined.

(** ** Starting up *)

Lemma posted_app t1 t2 : posted (t1 ++ t2) = posted t1 ++ posted t2.
Proof. unfold posted. by rewrite flat_map_app. Qed.

(** [k] calls of [downloadChunk] in a row, with no failure on record and
    [k] free slots: the first [k] entries are taken off the queue, those
    that are chunks are sent, in order, and each call that finds a null entry
    or the queue empty fires [onFinished].  If [onFinished] is neither a
    function nor null, the first such call throws; with no null entry in the
    queue that is after the last chunk has been sent. *)
Lemma times_downloadChunk_fan_out cfg k s :
  chunkFailures s = ∅ ->
  ((0 < k)%nat ->
   concurrentDownloads s + Z.of_nat k <= concurrentDownloadsMax cfg) ->
  onFinished cfg <> HOther \/ null_free (chunks s) ->
  let s' := state_of (times k (downloadChunk cfg) s) in
  let sent := chunks_of (take k (chunks s)) in
  pending s' = pending s ++ sent /\
  chunks s' = drop k (chunks s) /\
  concurrentDownloads s' = concurrentDownloads s + Z.of_nat (length sent) /\
  chunkFailures s' = ∅ /\
  fetching s' = fetching s /\
  posted (trace s') = posted (trace s) ++ sent /\
  (onFinished cfg = HFunction ->
   count (is_fired OnFinished) (trace s')
   = (count (is_fired OnFinished) (trace s) + (k - length sent))%nat).
Proof.
  revert s. induction k as [|k IH]; intros s Hf Hk Hok; cbv zeta.
  - rewrite take_0, drop_0. change (chunks_of []) with (@nil chunk).
    simpl. rewrite !app_nil_r. split_and!; try done; try lia.
  - assert (concurrentDownloads s < concurrentDownloadsMax cfg) as Hlt by lia.
    assert (forall e q',
              chunks s = e :: q' ->
              onFinished cfg <> HOther \/ null_free q') as Hok'.
    { intros e q' Hq. destruct Hok as [?|Hnf]; [by left|right].
      rewrite Hq in Hnf. by apply Forall_cons in Hnf as [_ ?]. }
    cbn [times]. rewrite (downloadChunk_eq cfg s).
    destruct (Z.leb_spec (concurrentDownloadsMax cfg) (concurrentDownloads s));
      [lia|].
    destruct (chunks s) as [|[c|] q'] eqn:Hq; cbn [take drop].
    + clear Hok'.
      destruct (callback_cases OnFinished (onFinished cfg) JUndefined s)
        as [[Hcb ->]|[[Hcb ->]|[Hcb [msg ->]]]]; simpl.
      * destruct (IH s Hf) as (Hp & Hc & Hn & Hf' & Hft & Hpo & Hfin);
          [lia|by left; congruence|].
        rewrite Hq in *. rewrite take_nil, drop_nil in *.
        change (chunks_of []) with (@nil chunk) in *.
        split_and!; try done; try lia; try (intros Hfn; congruence).
      * destruct (IH (emit (Fired OnFinished None (view_of s)) s) Hf)
          as (Hp & Hc & Hn & Hf' & Hft & Hpo & Hfin);
          [simpl; lia|by left; congruence|].
        simpl in *. rewrite Hq in *. rewrite take_nil, drop_nil in *.
        change (chunks_of []) with (@nil chunk) in *.
        rewrite posted_app in Hpo. simpl in Hpo. rewrite app_nil_r in Hpo.
        split_and!; try done; try lia.
        intros Hfn. rewrite (Hfin Hfn), count_snoc. simpl. lia.
      * change (chunks_of []) with (@nil chunk).
        rewrite !app_nil_r. split_and!; try done; try lia; try (intros Hfn; congruence).
    + cbv zeta. specialize (Hok' _ _ eq_refl).
      assert (given_up cfg (set_chunks q' s) c = false) as ->.
      { unfold given_up. simpl. by rewrite Hf, lookup_empty. }
      change (chunks_of (Some c :: take k q')) with (c :: chunks_of (take k q')).
      simpl.
      match goal with |- context [times k _ ?s1] =>
        destruct (IH s1) as (Hp & Hc & Hn & Hf' & Hft & Hpo & Hfin);
          [done | simpl; lia | done |]
      end.
      simpl in *. rewrite Hp, Hc, Hn, Hpo, posted_app, <- !app_assoc. simpl.
      split_and!; try done; try lia.
      intros Hfn. rewrite (Hfin Hfn), count_snoc. done.
    + specialize (Hok' _ _ eq_refl).
      change (chunks_of (None :: take k q')) with (chunks_of (take k q')).
      pose proof (chunks_of_length (take k q')) as Hlen.
      rewrite length_take in Hlen.
      destruct (callback_cases OnFinished (onFinished cfg) JUndefined
                  (set_chunks q' s))
        as [[Hcb ->]|[[Hcb ->]|[Hcb [msg ->]]]]; simpl.
      * destruct (IH (set_chunks q' s) Hf)
          as (Hp & Hc & Hn & Hf' & Hft & Hpo & Hfin); [simpl; lia|done|].
        simpl in *.
        split_and!; try done; try lia; try (intros Hfn; congruence).
      * destruct (IH (emit (Fired OnFinished None (view_of (set_chunks q' s)))
                        (set_chunks q' s)) Hf)
          as (Hp & Hc & Hn & Hf' & Hft & Hpo & Hfin); [simpl; lia|done|].
        simpl in *.
        rewrite posted_app in Hpo. simpl in Hpo. rewrite app_nil_r in Hpo.
        split_and!; try done; try lia.
        intros Hfn. rewrite (Hfin Hfn), count_snoc. simpl. lia.
      * destruct Hok as [?|Hnf]; [done|].
        apply Forall_cons in Hnf as [[? [=]] _].
Qed.

(** X5: how the downloading starts.  When the plugin starts on the list
    [cs], supplied in the configuration or loaded from [chunksUrl], it takes
    the first [concurrentDownloadsMax] entries off the list, sends those that
    are chunks, in their order, and keeps the rest in the queue; the counter
    is the number of requests sent; and a function [onFinished] fires once
    for every slot that sends nothing, that is [concurrentDownloadsMax] minus
    the number of requests sent times.  This holds when [onFinished] is a
    function or null, and also, whatever [onFinished] is, when no entry is
    null; without a null entry the requests sent are the first
    [concurrentDownloadsMax] chunks and [onFinished] fires
    [concurrentDownloadsMax] minus the number of chunks times.  With a cap of
    zero or less nothing is sent and nothing fires. *)
Theorem X5_start_fan_out :
  (forall o cs,
      verifySettings (extend defaultOptions o) = None ->
      settings_chunks (extend defaultOptions o) = Some cs ->
      onFinished (extend defaultOptions o) <> HOther \/ null_free cs ->
      let n := Z.to_nat (concurrentDownloadsMax (extend defaultOptions o)) in
      let s := state_of (chunkatron o) in
      let sent := chunks_of (take n cs) in
      pending s = sent /\ chunks s = drop n cs /\
      concurrentDownloads s = Z.of_nat (length sent) /\
      posted (trace s) = sent /\
      (onFinished (extend defaultOptions o) = HFunction ->
       count (is_fired OnFinished) (trace s) = (n - length sent)%nat)) /\
  (forall o cs',
      verifySettings (extend defaultOptions o) = None ->
      settings_chunks (extend defaultOptions o) = Some (Some <$> cs') ->
      let n := Z.to_nat (concurrentDownloadsMax (extend defaultOptions o)) in
      let s := state_of (chunkatron o) in
      pending s = take n cs' /\ chunks s = Some <$> drop n cs' /\
      concurrentDownloads s = Z.of_nat (length (take n cs')) /\
      posted (trace s) = take n cs' /\
      (onFinished (extend defaultOptions o) = HFunction ->
       count (is_fired OnFinished) (trace s) = (n - length cs')%nat)) /\
  (forall o u data,
      verifySettings (extend defaultOptions o) = None ->
      settings_chunks (extend defaultOptions o) = None ->
      chunksUrl (extend defaultOptions o) = Some u ->
      onFinished (extend defaultOptions o) <> HOther \/ null_free data ->
      let n := Z.to_nat (concurrentDownloadsMax (extend defaultOptions o)) in
      let sent := chunks_of (take n data) in
      pending (state_of (chunkatron o)) = [] /\
      posted (trace (state_of (chunkatron o))) = [] /\
      exists out,
        step (extend defaultOptions o) (ChunksLoaded data)
          (state_of (chunkatron o)) = Some out /\
        pending (state_of out) = sent /\
        chunks (state_of out) = drop n data /\
        concurrentDownloads (state_of out) = Z.of_nat (length sent) /\
        posted (trace (state_of out)) = sent /\
        (onFinished (extend defaultOptions o) = HFunction ->
         count (is_fired OnFinished) (trace (state_of out))
         = (n - length sent)%nat)).
Proof.
  assert (forall o cs,
      verifySettings (extend defaultOptions o) = None ->
      settings_chunks (extend defaultOptions o) = Some cs ->
      onFinished (extend defaultOptions o) <> HOther \/ null_free cs ->
      let n := Z.to_nat (concurrentDownloadsMax (extend defaultOptions o)) in
      let s := state_of (chunkatron o) in
      let sent := chunks_of (take n cs) in
      pending s = sent /\ chunks s = drop n cs /\
      concurrentDownloads s = Z.of_nat (length sent) /\
      posted (trace s) = sent /\
      (onFinished (extend defaultOptions o) = HFunction ->
       count (is_fired OnFinished) (trace s) = (n - length sent)%nat)) as H1.
  { intros o cs Hv Hcs Hok n s sent. subst s. unfold chunkatron. cbv zeta.
    rewrite Hv, Hcs. simpl.
    destruct (times_downloadChunk_fan_out (extend defaultOptions o)
                (Z.to_nat (concurrentDownloadsMax (extend defaultOptions o)))
                (set_chunks cs initial))
      as (Hp & Hc & Hn & _ & _ & Hpo & Hfin); [done | simpl; lia | done |].
    simpl in *. fold n in Hp, Hc, Hn, Hpo, Hfin |- *.
    fold sent in Hp, Hn, Hpo, Hfin.
    rewrite Hp, Hc, Hn, Hpo. split_and!; try done; lia. }
  split; [exact H1|]. split.
  - intros o cs' Hv Hcs n s.
    assert (null_free (Some <$> cs')) as Hnf.
    { apply Forall_fmap, Forall_true. by eexists. }
    destruct (H1 o (Some <$> cs') Hv Hcs (or_intror Hnf))
      as (Hp & Hc & Hn & Hpo & Hfin).
    fold n s in Hp, Hc, Hn, Hpo, Hfin.
    rewrite <- fmap_take, chunks_of_fmap in Hp, Hn, Hpo, Hfin.
    rewrite <- fmap_drop in Hc.
    split_and!; try done. intros Hfn. rewrite (Hfin Hfn), length_take. lia.
  - intros o u data Hv Hcs Hcu Hok n sent. unfold chunkatron. cbv zeta.
    rewrite Hv, Hcs, Hcu. simpl. split; [done|]. split; [done|].
    eexists. split; [reflexivity|].
    destruct (times_downloadChunk_fan_out (extend defaultOptions o)
                (Z.to_nat (concurrentDownloadsMax (extend defaultOptions o)))
                (set_chunks data
                   (set_fetching false
                      (emit (Get u (dataType (extend defaultOptions o)))
                         (set_fetching true initial)))))
      as (Hp & Hc & Hn & _ & _ & Hpo & Hfin); [done | simpl; lia | done |].
    simpl in *. fold n in Hp, Hc, Hn, Hpo, Hfin |- *.
    fold sent in Hp, Hn, Hpo, Hfin.
    rewrite Hp, Hc, Hn, Hpo. split_and!; try done; lia.
Qed.

Lemma X5_witness :
  pending (state_of (chunkatron three_chunks)) = [[1]; [2]] /\
  chunks (state_of (chunkatron three_chunks)) = [Some [3]] /\
  posted (trace (state_of (chunkatron three_chunks))) = [[1]; [2]].
Proof.
  destruct (proj1 (proj2 X5_start_fan_out) three_chunks [[1]; [2]; [3]]
              eq_refl eq_refl)
    as (Hp & Hc & _ & Hpo & _).
  split; [exact Hp|]. split; [exact Hc | exact Hpo].
Defined.

(** ** The counter and the requests in flight *)

Lemma downloadChunk_counts cfg s :
  concurrentDownloads s = Z.of_nat (length (pending s)) ->
  concurrentDownloads (state_of (downloadChunk cfg s))
  = Z.of_nat (length (pending (state_of (downloadChunk cfg s)))).
Proof.
  pattern s, (downloadChunk cfg s). apply downloadChunk_induction; clear s.
  - done.
  - intros s _ _ H.
    by destruct (callback_fields OnFinished (onFinished cfg) JUndefined s)
      as (-> & _ & _ & -> & _).
  - intros s q' _ _ H.
    by destruct (callback_fields OnFinished (onFinished cfg) JUndefined
                   (set_chunks q' s)) as (-> & _ & _ & -> & _).
  - intros s c q' _ _ _ H. simpl. rewrite length_app. simpl. lia.
  - intros s c q' msg s1 _ _ _ Hcb H.
    destruct (callback_fields OnChunkGiveUp (onChunkGiveUp cfg) (JArr c)
                (set_chunks q' s)) as (Hn & _ & _ & Hp & _).
    rewrite Hcb in Hn, Hp. simpl in *. by rewrite Hn, Hp.
  - intros s c q' s1 _ _ _ Hcb IH H. apply IH.
    destruct (callback_fields OnChunkGiveUp (onChunkGiveUp cfg) (JArr c)
                (set_chunks q' s)) as (Hn & _ & _ & Hp & _).
    rewrite Hcb in Hn, Hp. simpl in *. by rewrite Hn, Hp.
Qed.

Lemma start_counts cfg cs s :
  concurrentDownloads s = Z.of_nat (length (pending s)) ->
  concurrentDownloads (state_of (start cfg cs s))
  = Z.of_nat (length (pending (state_of (start cfg cs s)))).
Proof.
  intros H. destruct cs as [cs|]; simpl.
  - by apply (times_preserves
                (fun s' => concurrentDownloads s'
                           = Z.of_nat (length (pending s'))));
      [apply downloadChunk_counts|].
  - by destruct (0 <? concurrentDownloadsMax cfg).
Qed.

Lemma step_counts cfg inp s out :
  onChunkSuccess cfg <> HOther ->
  onChunkError cfg <> HOther ->
  concurrentDownloads s = Z.of_nat (length (pending s)) ->
  step cfg inp s = Some out ->
  concurrentDownloads (state_of out)
  = Z.of_nat (length (pending (state_of out))).
Proof.
  intros Hok Herr H Hstep. destruct inp as [i r| data |].
  - destruct (step_response_inv _ _ _ _ _ Hstep) as [c Hi].
    rewrite (step_response cfg i r s c Hi) in Hstep. injection Hstep as <-.
    assert (exists s2,
              match r with
              | Success data =>
                  ajax_success cfg data (set_pending (delete i (pending s)) s)
              | Error error =>
                  ajax_error cfg c error (set_pending (delete i (pending s)) s)
              end = Done s2 /\
              concurrentDownloads s2 = Z.of_nat (length (pending s2)) + 1)
      as (s2 & -> & H2).
    { assert (Z.of_nat (length (delete i (pending s))) + 1
              = Z.of_nat (length (pending s))) as Hlen.
      { rewrite length_delete by eauto. apply lookup_lt_Some in Hi. lia. }
      destruct r as [data|error]; unfold ajax_success, ajax_error; cbv zeta;
        match goal with |- context [callback ?h ?cb ?p ?s1] =>
          destruct (callback_returns h cb p s1) as [s2 Hs2]; [done|];
          pose proof (callback_fields h cb p s1) as (Hn & _ & _ & Hp & _);
          rewrite Hs2 in Hn, Hp |- *; simpl in Hn, Hp
        end; exists s2; (split; [done|]); rewrite Hn, Hp; lia. }
    simpl. unfold ajax_complete. cbv zeta.
    apply (and_then_preserves
             (fun s' => concurrentDownloads s' = Z.of_nat (length (pending s'))));
      [|intros s'; apply downloadChunk_counts].
    match goal with |- context [callback ?h ?cb ?p ?s1] =>
      destruct (callback_fields h cb p s1) as (-> & _ & _ & -> & _)
    end. simpl. lia.
  - unfold step in Hstep. destruct (fetching s); [|done].
    injection Hstep as <-.
    by apply (start_counts cfg (Some data) (set_fetching false s)).
  - unfold step in Hstep. destruct (fetching s); [|done].
    by injection Hstep as <-.
Qed.

Lemma reachable_counts o s :
  onChunkSuccess (extend defaultOptions o) <> HOther ->
  onChunkError (extend defaultOptions o) <> HOther ->
  reachable o s ->
  concurrentDownloads s = Z.of_nat (length (pending s)).
Proof.
  intros Hok Herr. induction 1 as [|s inp out _ IH Hstep].
  - unfold chunkatron. cbv zeta. destruct (verifySettings _); [done|].
    destruct (settings_chunks _) as [cs|]; [by apply start_counts|].
    destruct (chunksUrl _); [done|]. by apply start_counts.
  - by apply (step_counts (extend defaultOptions o) inp s).
Qed.

(** X6: the counter is the number of requests in flight, as long as
    [onChunkSuccess] and [onChunkError] are functions or null.  If
    [onChunkSuccess] is anything else, the turn of a success throws out of
    [callback] before [complete] runs: the request is gone, the counter
    stays, nothing is added to the trace and the queue is not looked at, so
    that the slot is lost for good. *)
Theorem X6_counter_counts_requests_in_flight :
  (forall o s,
      onChunkSuccess (extend defaultOptions o) <> HOther ->
      onChunkError (extend defaultOptions o) <> HOther ->
      reachable o s ->
      concurrentDownloads s = Z.of_nat (length (pending s))) /\
  (forall cfg i data s c,
      onChunkSuccess cfg = HOther ->
      pending s !! i = Some c ->
      exists msg s',
        step cfg (Response i (Success data)) s = Some (Thrown msg s') /\
        concurrentDownloads s' = concurrentDownloads s /\
        S (length (pending s')) = length (pending s) /\
        chunks s' = chunks s /\ trace s' = trace s).
Proof.
  split; [apply reachable_counts|].
  intros cfg i data s c Hbad Hi. rewrite (step_response cfg i _ s c Hi).
  unfold ajax_success. rewrite Hbad. simpl. eexists _, _.
  split; [reflexivity|]. simpl. repeat split.
  rewrite length_delete by eauto. apply lookup_lt_Some in Hi. lia.
Qed.

Lemma X6_witness :
  concurrentDownloads (state_of (chunkatron three_chunks))
  = Z.of_nat (length (pending (state_of (chunkatron three_chunks)))).
Proof.
  apply (proj1 X6_counter_counts_requests_in_flight three_chunks);
    [discriminate | discriminate | constructor].
Defined.

(** ** The cap is kept saturated *)

Lemma downloadChunk_null_free cfg s :
  null_free (chunks s) -> null_free (chunks (state_of (downloadChunk cfg s))).
Proof.
  pattern s, (downloadChunk cfg s). apply downloadChunk_induction; clear s.
  - done.
  - intros s _ _ H.
    by destruct (callback_fields OnFinished (onFinished cfg) JUndefined s)
      as (_ & _ & -> & _).
  - intros s q' _ Hq H. rewrite Hq in H.
    by apply Forall_cons in H as [[? [=]] _].
  - intros s c q' _ Hq _ H. simpl. rewrite Hq in H.
    by apply Forall_cons in H as [_ ?].
  - intros s c q' msg s1 _ Hq _ Hcb H.
    destruct (callback_fields OnChunkGiveUp (onChunkGiveUp cfg) (JArr c)
                (set_chunks q' s)) as (_ & _ & Hc & _).
    rewrite Hcb in Hc. simpl in *. rewrite Hc. rewrite Hq in H.
    by apply Forall_cons in H as [_ ?].
  - intros s c q' s1 _ Hq _ Hcb IH H. apply IH.
    destruct (callback_fields OnChunkGiveUp (onChunkGiveUp cfg) (JArr c)
                (set_chunks q' s)) as (_ & _ & Hc & _).
    rewrite Hcb in Hc. simpl in *. rewrite Hc. rewrite Hq in H.
    by apply Forall_cons in H as [_ ?].
Qed.

Lemma start_null_free cfg cs s :
  null_free cs -> null_free (chunks (state_of (start cfg (Some cs) s))).
Proof.
  intros H. simpl.
  by apply (times_preserves (fun s' => null_free (chunks s')));
    [apply downloadChunk_null_free|].
Qed.

Lemma step_null_free cfg inp s out :
  loads_no_null inp ->
  null_free (chunks s) ->
  step cfg inp s = Some out ->
  null_free (chunks (state_of out)).
Proof.
  intros Hinp H Hstep. destruct inp as [i r| data |].
  - destruct (step_response_inv _ _ _ _ _ Hstep) as [c Hi].
    rewrite (step_response cfg i r s c Hi) in Hstep. injection Hstep as <-.
    apply (and_then_preserves (fun s' => null_free (chunks s'))).
    + destruct r as [data|error]; unfold ajax_success, ajax_error; cbv zeta;
        match goal with |- context [callback ?h ?cb ?p ?s1] =>
          destruct (callback_fields h cb p s1) as (_ & _ & -> & _)
        end; simpl; [done|].
      apply Forall_app. split; [done|]. by repeat constructor.
    + intros s' Hs'. unfold ajax_complete. cbv zeta.
      apply (and_then_preserves (fun s' => null_free (chunks s')));
        [|apply downloadChunk_null_free].
      match goal with |- context [callback ?h ?cb ?p ?s1] =>
        by destruct (callback_fields h cb p s1) as (_ & _ & -> & _)
      end.
  - unfold step in Hstep. destruct (fetching s); [|done].
    injection Hstep as <-.
    by apply (start_null_free cfg data (set_fetching false s)).
  - unfold step in Hstep. destruct (fetching s); [|done].
    by injection Hstep as <-.
Qed.

Lemma chunkatron_null_free o :
  (forall cs, settings_chunks (extend defaultOptions o) = Some cs ->
              null_free cs) ->
  null_free (chunks (state_of (chunkatron o))).
Proof.
  intros Hcs. unfold chunkatron. cbv zeta.
  destruct (verifySettings _); [constructor|].
  destruct (settings_chunks _) as [cs|]; [by apply start_null_free; auto|].
  destruct (chunksUrl _); [constructor|]. unfold start.
  destruct (0 <? concurrentDownloadsMax (extend defaultOptions o)); constructor.
Qed.

Lemma downloadChunk_saturates cfg s :
  onChunkGiveUp cfg <> HOther ->
  null_free (chunks s) ->
  nearly_saturated cfg s ->
  saturated cfg (state_of (downloadChunk cfg s)).
Proof.
  intros Hgu. pattern s, (downloadChunk cfg s).
  apply downloadChunk_induction; clear s.
  - intros s Hle _ _. by right.
  - intros s _ Hq _ _. left.
    by destruct (callback_fields OnFinished (onFinished cfg) JUndefined s)
      as (_ & _ & -> & _).
  - intros s q' _ Hq H. rewrite Hq in H.
    by apply Forall_cons in H as [[? [=]] _].
  - intros s c q' _ Hq _ _ [H|H]; simpl.
    + left. rewrite Hq in H. simpl in H. destruct q'; [done|simpl in H; lia].
    + by right.
  - intros s c q' msg s1 _ _ _ Hcb.
    destruct (callback_returns OnChunkGiveUp _ (JArr c) (set_chunks q' s) Hgu)
      as [s' Hs']. congruence.
  - intros s c q' s1 _ Hq _ Hcb IH Hnf H.
    destruct (callback_fields OnChunkGiveUp (onChunkGiveUp cfg) (JArr c)
                (set_chunks q' s)) as (Hn & _ & Hc & _).
    rewrite Hcb in Hn, Hc. simpl in *. rewrite Hq in Hnf.
    apply Forall_cons in Hnf as [_ Hnf]. apply IH; [by rewrite Hc|].
    unfold nearly_saturated.
    rewrite Hn, Hc. destruct H as [H|H]; [left|by right].
    rewrite Hq in H. simpl in H. lia.
Qed.

Lemma start_saturates cfg cs s :
  null_free cs ->
  chunkFailures s = ∅ ->
  concurrentDownloads s = 0 ->
  saturated cfg (state_of (start cfg (Some cs) s)).
Proof.
  intros Hnf Hf Hn. simpl.
  destruct (times_downloadChunk_fan_out cfg
              (Z.to_nat (concurrentDownloadsMax cfg)) (set_chunks cs s))
    as (_ & Hc & Hcd & _); [done | simpl; lia | by right |].
  simpl in Hc, Hcd. unfold saturated. rewrite Hc, Hcd, Hn.
  destruct (decide (length cs <= Z.to_nat (concurrentDownloadsMax cfg))%nat).
  - left. by apply drop_ge.
  - right. rewrite chunks_of_length_null_free by by apply Forall_take.
    rewrite length_take. lia.
Qed.

Lemma step_saturated cfg inp s out :
  hooks_typed cfg ->
  loads_no_null inp ->
  null_free (chunks s) ->
  fetching s = false \/ idle_while_fetching s ->
  saturated cfg s ->
  step cfg inp s = Some out ->
  saturated cfg (state_of out).
Proof.
  intros (Hok & Herr & Hgu & Hcomp & _) Hinp Hnf Hidle Hsat Hstep.
  destruct inp as [i r| data |].
  - destruct (step_response_inv _ _ _ _ _ Hstep) as [c Hi].
    rewrite (step_response cfg i r s c Hi) in Hstep. injection Hstep as <-.
    assert (exists s2,
              match r with
              | Success data =>
                  ajax_success cfg data (set_pending (delete i (pending s)) s)
              | Error error =>
                  ajax_error cfg c error (set_pending (delete i (pending s)) s)
              end = Done s2 /\
              null_free (chunks s2) /\
              ((length (chunks s2) <= 1)%nat \/
               concurrentDownloadsMax cfg <= concurrentDownloads s2))
      as (s2 & -> & Hnf2 & H2).
    { destruct r as [data|error]; unfold ajax_success, ajax_error; cbv zeta;
        match goal with |- context [callback ?h ?cb ?p ?s1] =>
          destruct (callback_returns h cb p s1) as [s2 Hs2]; [done|];
          pose proof (callback_fields h cb p s1) as (Hn & _ & Hc & _);
          rewrite Hs2 in Hn, Hc |- *; simpl in Hn, Hc
        end; exists s2; (split; [done|]); rewrite Hn, Hc.
      - split; [done|].
        destruct Hsat as [->|H]; [left; simpl; lia|by right].
      - split; [apply Forall_app; split; [done|by repeat constructor]|].
        destruct Hsat as [->|H]; [left; simpl; lia|by right]. }
    simpl. unfold ajax_complete. cbv zeta.
    match goal with |- context [callback ?h ?cb ?p ?s1] =>
      destruct (callback_returns h cb p s1) as [s3 Hs3]; [done|];
      pose proof (callback_fields h cb p s1) as (Hn & _ & Hc & _);
      rewrite Hs3 in Hn, Hc |- *; simpl in Hn, Hc
    end.
    simpl. apply downloadChunk_saturates; [done|by rewrite Hc|].
    unfold nearly_saturated. rewrite Hn, Hc.
    destruct H2 as [H2|H2]; [by left|right; lia].
  - unfold step in Hstep. destruct (fetching s) eqn:Hft; [|done].
    injection Hstep as <-.
    destruct Hidle as [Hff|Hidle]; [congruence|].
    destruct (Hidle Hft) as (Hf & Hn & _).
    by apply (start_saturates cfg data (set_fetching false s)).
  - unfold step in Hstep. destruct (fetching s); [|done].
    by injection Hstep as <-.
Qed.

Lemma reachable_idle_while_fetching o s :
  reachable o s -> idle_while_fetching s.
Proof.
  induction 1 as [|s inp out Hs IH Hstep].
  - unfold chunkatron. cbv zeta. destruct (verifySettings _); [done|].
    assert (forall cs, idle_while_fetching
              (state_of (start (extend defaultOptions o) cs initial))) as H0.
    { intros cs Hft.
      by rewrite (proj1 (start_settled (fun _ => True) (fun _ _ _ _ => I)
                           (extend defaultOptions o) cs initial
                           (conj eq_refl I))) in Hft. }
    destruct (settings_chunks _) as [cs|]; [apply H0|].
    destruct (chunksUrl _); [done|apply H0].
  - intros Hft. destruct (fetching s) eqn:Hfs.
    + destruct (IH Hfs) as (Hf & Hn & Hp).
      destruct inp as [i r| data |]; unfold step in Hstep.
      * by rewrite Hp in Hstep.
      * rewrite Hfs in Hstep. injection Hstep as <-.
        match type of Hft with
        | ?x = true =>
            assert (x = false) as Hx
              by exact (proj1 (start_settled (fun _ => True)
                                 (fun _ _ _ _ => I)
                                 (extend defaultOptions o) (Some data)
                                 (set_fetching false s) (conj eq_refl I)))
        end.
        congruence.
      * rewrite Hfs in Hstep. by injection Hstep as <-.
    + by rewrite (proj1 (step_settled (fun _ => True) (fun _ _ _ _ => I)
                           (extend defaultOptions o) inp s out
                           (conj Hfs I) Hstep)) in Hft.
Qed.

Lemma chunkatron_saturated o :
  (forall cs, settings_chunks (extend defaultOptions o) = Some cs ->
              null_free cs) ->
  saturated (extend defaultOptions o) (state_of (chunkatron o)).
Proof.
  intros Hcs. unfold chunkatron. cbv zeta.
  destruct (verifySettings _); [by left|].
  destruct (settings_chunks _) as [cs|]; [by apply start_saturates; auto|].
  destruct (chunksUrl _); [by left|]. unfold start.
  destruct (0 <? concurrentDownloadsMax (extend defaultOptions o)); by left.
Qed.

(** X7: the cap is kept saturated, as long as no entry of the chunk list is
    null.  With every hook a function or null, a cap that is not negative
    and a chunk list, supplied or loaded, without a null entry: in every
    state of a run in which an entry is waiting in the queue exactly
    [concurrentDownloadsMax] requests are in flight; so when nothing is in
    flight and the cap is positive, nothing is waiting: the plugin never
    comes to rest with work left in the queue. *)
Theorem X7_cap_is_kept_saturated o inps s :
  hooks_typed (extend defaultOptions o) ->
  0 <= concurrentDownloadsMax (extend defaultOptions o) ->
  (forall cs, settings_chunks (extend defaultOptions o) = Some cs ->
              null_free cs) ->
  Forall loads_no_null inps ->
  run (extend defaultOptions o) inps (state_of (chunkatron o)) = Some s ->
  null_free (chunks s) /\
  (chunks s <> [] ->
   Z.of_nat (length (pending s)) = concurrentDownloadsMax (extend defaultOptions o)
   /\ concurrentDownloads s = concurrentDownloadsMax (extend defaultOptions o)) /\
  (0 < concurrentDownloadsMax (extend defaultOptions o) ->
   pending s = [] -> chunks s = []).
Proof.
  intros Hty Hcap Hcs Hinps Hrun.
  assert (reachable o s) as Hs.
  { apply (run_reachable o inps (state_of (chunkatron o))); [constructor|done]. }
  assert (null_free (chunks s) /\ saturated (extend defaultOptions o) s)
    as [Hnf Hsat].
  { apply (run_invariant o
             (fun s' => null_free (chunks s') /\
                        saturated (extend defaultOptions o) s')
             inps (state_of (chunkatron o)));
      [|done|constructor| |done].
    - intros s0 inp out Hs0 Hinp [Hnf0 Hsat0] Hstep. split.
      + by apply (step_null_free (extend defaultOptions o) inp s0).
      + apply (step_saturated (extend defaultOptions o) inp s0); try done.
        right. by apply (reachable_idle_while_fetching o).
    - split; [by apply chunkatron_null_free|by apply chunkatron_saturated]. }
  split; [done|].
  pose proof (reachable_inv o s Hs) as [Hb _].
  destruct Hty as (Hok & Herr & _).
  pose proof (reachable_counts o s Hok Herr Hs) as Hn.
  rewrite Z.max_r in Hb by done. split.
  - intros Hq. destruct Hsat as [?|Hsat]; [done|]. lia.
  - intros Hpos Hp. destruct Hsat as [?|Hsat]; [done|].
    rewrite Hp in Hn. simpl in Hn. lia.
Qed.

Lemma X7_witness :
  Z.of_nat (length (pending (state_of (chunkatron three_chunks)))) = 2 /\
  concurrentDownloads (state_of (chunkatron three_chunks)) = 2.
Proof.
  apply (proj1 (proj2 (X7_cap_is_kept_saturated three_chunks []
                         (state_of (chunkatron three_chunks))
                         ltac:(repeat split; discriminate)
                         ltac:(simpl; lia)
                         ltac:(intros cs [= <-]; repeat constructor; eauto)
                         ltac:(constructor)
                         eq_refl)));
    discriminate.
Defined.

(** ** What the hooks are called with *)

Lemma callback_args_ok cfg h cb params s :
  hook_args_ok cfg (Fired h (if truthy params then Some params else None)
                      (view_of s)) ->
  Forall (hook_args_ok cfg) (trace s) ->
  Forall (hook_args_ok cfg) (trace (state_of (callback h cb params s))).
Proof.
  intros He Ht. destruct cb; simpl; [done| |done].
  apply Forall_app. split; [done|]. by constructor.
Qed.

Lemma downloadChunk_args_ok cfg s :
  Forall (hook_args_ok cfg) (trace s) ->
  Forall (hook_args_ok cfg) (trace (state_of (downloadChunk cfg s))).
Proof.
  assert (forall s0 c q',
            given_up cfg s0 c = true ->
            Forall (hook_args_ok cfg) (trace s0) ->
            Forall (hook_args_ok cfg)
              (trace (state_of (callback OnChunkGiveUp (onChunkGiveUp cfg)
                                  (JArr c) (set_chunks q' s0))))) as Hgive.
  { intros s0 c q' Hyes Ht. apply callback_args_ok; [|done]. simpl.
    unfold given_up in Hyes.
    destruct (chunkFailures s0 !! head c) as [n|] eqn:Hn; [|done].
    exists c, n. repeat split; [done|]. by apply Z.ltb_lt. }
  pattern s, (downloadChunk cfg s). apply downloadChunk_induction; clear s.
  - done.
  - intros s _ _ Ht. by apply callback_args_ok.
  - intros s q' _ _ Ht. by apply callback_args_ok.
  - intros s c q' _ _ _ Ht. simpl. apply Forall_app. split; [done|].
    by repeat constructor.
  - intros s c q' msg s1 _ _ Hyes Hcb Ht.
    change s1 with (state_of (Thrown msg s1)). rewrite <- Hcb. by apply Hgive.
  - intros s c q' s1 _ _ Hyes Hcb IH Ht. apply IH.
    change s1 with (state_of (Done s1)). rewrite <- Hcb. by apply Hgive.
Qed.

Lemma start_args_ok cfg cs s :
  Forall (hook_args_ok cfg) (trace s) ->
  Forall (hook_args_ok cfg) (trace (state_of (start cfg cs s))).
Proof.
  intros Ht. destruct cs as [cs|]; simpl.
  - by apply (times_preserves (fun s' => Forall (hook_args_ok cfg) (trace s')));
      [apply downloadChunk_args_ok|].
  - by destruct (0 <? concurrentDownloadsMax cfg).
Qed.

(** X8: what the hooks are called with.  In the trace of every reachable
    state, [onChunkGiveUp] was always called with a chunk, and the failure
    counter it could read for that chunk was over [maxDownloadRetries];
    [onChunkComplete] and [onFinished] were always called without an
    argument. *)
Theorem X8_hook_arguments o s :
  reachable o s ->
  Forall (hook_args_ok (extend defaultOptions o)) (trace s).
Proof.
  induction 1 as [|s inp out _ IH Hstep].
  - unfold chunkatron. cbv zeta. destruct (verifySettings _); [constructor|].
    destruct (settings_chunks _) as [cs|];
      [apply start_args_ok; constructor|].
    destruct (chunksUrl _); [by repeat constructor|].
    apply start_args_ok; constructor.
  - destruct inp as [i r| data |].
    + destruct (step_response_inv _ _ _ _ _ Hstep) as [c Hi].
      rewrite (step_response _ i r s c Hi) in Hstep. injection Hstep as <-.
      apply (and_then_preserves
               (fun s' => Forall (hook_args_ok (extend defaultOptions o))
                            (trace s'))).
      * destruct r as [data|error]; unfold ajax_success, ajax_error;
          by apply callback_args_ok.
      * intros s' Hs'. unfold ajax_complete. cbv zeta.
        apply (and_then_preserves
                 (fun s' => Forall (hook_args_ok (extend defaultOptions o))
                              (trace s')));
          [by apply callback_args_ok|apply downloadChunk_args_ok].
    + unfold step in Hstep. destruct (fetching s); [|done].
      injection Hstep as <-.
      by apply (start_args_ok (extend defaultOptions o) (Some data)
                  (set_fetching false s)).
    + unfold step in Hstep. destruct (fetching s); [|done].
      by injection Hstep as <-.
Qed.

Lemma X8_witness :
  Forall (hook_args_ok (extend defaultOptions pooled))
    (trace (state_of (default (Done initial)
              (step (extend defaultOptions pooled)
                 (Response 0 (Error (JStr "Gateway Timeout")))
                 (state_of (chunkatron pooled)))))).
Proof.
  apply (X8_hook_arguments pooled
           (state_of (default (Done initial)
              (step (extend defaultOptions pooled)
                 (Response 0 (Error (JStr "Gateway Timeout")))
                 (state_of (chunkatron pooled)))))).
  apply (reachable_step pooled (state_of (chunkatron pooled))
           (Response 0 (Error (JStr "Gateway Timeout")))
           (default (Done initial)
              (step (extend defaultOptions pooled)
                 (Response 0 (Error (JStr "Gateway Timeout")))
                 (state_of (chunkatron pooled)))));
    [constructor | vm_compute; reflexivity].
Defined.

(** ** A required callback that is not a function *)

Lemma callback_posted h cb params s :
  posted (trace (state_of (callback h cb params s))) = posted (trace s).
Proof.
  destruct cb; simpl; try done. rewrite posted_app. simpl. by rewrite app_nil_r.
Qed.

Lemma step_response_bad_complete cfg i r s out :
  onChunkComplete cfg = HOther ->
  step cfg (Response i r) s = Some out ->
  (exists msg s', out = Thrown msg s') /\
  posted (trace (state_of out)) = posted (trace s) /\
  S (length (pending (state_of out))) = length (pending s) /\
  fetching (state_of out) = fetching s.
Proof.
  intros Hbad Hstep. destruct (step_response_inv _ _ _ _ _ Hstep) as [c Hi].
  rewrite (step_response cfg i r s c Hi) in Hstep. injection Hstep as <-.
  assert (S (length (delete i (pending s))) = length (pending s)) as Hlen.
  { rewrite length_delete by eauto. apply lookup_lt_Some in Hi. lia. }
  set (first := match r with
                | Success data =>
                    ajax_success cfg data (set_pending (delete i (pending s)) s)
                | Error error =>
                    ajax_error cfg c error (set_pending (delete i (pending s)) s)
                end).
  assert (posted (trace (state_of first)) = posted (trace s) /\
          pending (state_of first) = delete i (pending s) /\
          fetching (state_of first) = fetching s) as (Hpo & Hp & Hft).
  { subst first. destruct r as [data|error];
      unfold ajax_success, ajax_error; cbv zeta;
      rewrite callback_posted;
      match goal with |- context [callback ?h ?cb ?p ?s1] =>
        by destruct (callback_fields h cb p s1) as (_ & _ & _ & -> & ->)
      end. }
  destruct first as [s2|msg s2]; simpl in *.
  - unfold ajax_complete. rewrite Hbad. simpl.
    rewrite Hpo, Hp, Hft. eauto 6.
  - rewrite Hpo, Hp, Hft. eauto 6.
Qed.

(** X9: a required callback that is not a function.  [verifySettings] only
    asks that [onChunkComplete] is not null.  If it is neither null nor a
    function, every answer of the network ends in the exception of
    [callback]: the turn sends no request.  So the chunks that were sent
    when the plugin started on the supplied list are all that are ever sent:
    the chunks among the first [concurrentDownloadsMax] entries, that is the
    first [concurrentDownloadsMax] chunks when no entry is null. *)
Theorem X9_onChunkComplete_not_a_function :
  (forall cfg,
      onChunkComplete cfg = HOther ->
      url cfg <> None ->
      settings_chunks cfg <> None \/ chunksUrl cfg <> None ->
      verifySettings cfg = None) /\
  (forall cfg i r s out,
      onChunkComplete cfg = HOther ->
      step cfg (Response i r) s = Some out ->
      (exists msg s', out = Thrown msg s') /\
      posted (trace (state_of out)) = posted (trace s) /\
      S (length (pending (state_of out))) = length (pending s)) /\
  (forall o cs inps s,
      onChunkComplete (extend defaultOptions o) = HOther ->
      verifySettings (extend defaultOptions o) = None ->
      settings_chunks (extend defaultOptions o) = Some cs ->
      run (extend defaultOptions o) inps (state_of (chunkatron o)) = Some s ->
      posted (trace s) = posted (trace (state_of (chunkatron o))) /\
      (onFinished (extend defaultOptions o) <> HOther \/ null_free cs ->
       posted (trace s)
       = chunks_of
           (take (Z.to_nat (concurrentDownloadsMax (extend defaultOptions o)))
              cs)) /\
      (forall cs',
          cs = Some <$> cs' ->
          posted (trace s)
          = take (Z.to_nat (concurrentDownloadsMax (extend defaultOptions o)))
              cs')).
Proof.
  split; [|split].
  - intros cfg Hbad Hu Hsrc. rewrite verifySettings_eq, Hbad.
    destruct (url cfg); [|done]. simpl.
    destruct (settings_chunks cfg), (chunksUrl cfg); simpl; try done.
    by destruct Hsrc.
  - intros cfg i r s out Hbad Hstep.
    destruct (step_response_bad_complete cfg i r s out Hbad Hstep)
      as (H1 & H2 & H3 & _). done.
  - intros o cs inps s Hbad Hv Hcs Hrun.
    assert (posted (trace s) = posted (trace (state_of (chunkatron o))))
      as Hsame.
    { assert (fetching (state_of (chunkatron o)) = false) as Hft.
      { apply (reachable_supplied_not_fetching o cs _ Hcs). constructor. }
      revert Hft Hrun. generalize (state_of (chunkatron o)). clear Hv Hcs.
      induction inps as [|inp inps IH]; intros s0 Hft Hrun; simpl in Hrun.
      + by injection Hrun as <-.
      + destruct (step (extend defaultOptions o) inp s0) as [out|] eqn:Hstep;
          [|done].
        destruct inp as [i r| data |]; unfold step in Hstep;
          [|by rewrite Hft in Hstep..]. fold (step (extend defaultOptions o)
                                                    (Response i r) s0) in Hstep.
        destruct (step_response_bad_complete _ i r s0 out Hbad Hstep)
          as (_ & Hpo & _ & Hft').
        rewrite <- Hpo. apply IH; [congruence|done]. }
    assert (onFinished (extend defaultOptions o) <> HOther \/ null_free cs ->
            posted (trace s)
            = chunks_of
                (take (Z.to_nat (concurrentDownloadsMax (extend defaultOptions o)))
                   cs)) as Hsent.
    { intros Hok. rewrite Hsame. unfold chunkatron. cbv zeta.
      rewrite Hv, Hcs. simpl.
      destruct (times_downloadChunk_fan_out (extend defaultOptions o)
                  (Z.to_nat (concurrentDownloadsMax (extend defaultOptions o)))
                  (set_chunks cs initial))
        as (_ & _ & _ & _ & _ & Hpo & _); [done | simpl; lia | done |].
      simpl in *. by rewrite Hpo. }
    split; [done|]. split; [done|].
    intros cs' ->. rewrite Hsent.
    + by rewrite <- fmap_take, chunks_of_fmap.
    + right. apply Forall_fmap, Forall_true. by eexists.
Qed.

Lemma X9_witness :
  verifySettings
    {| url := Some "/report"%string; onChunkComplete := HOther;
       settings_chunks := Some [Some [1]]; chunksUrl := None;
       onComplete := HNull; onChunkSuccess := HNull; onChunkError := HNull;
       onChunkGiveUp := HNull; onFinished := HNull;
       verbose := false; dataType := "json";
       maxDownloadRetries := 3; concurrentDownloadsMax := 10 |} = None.
Proof.
  apply (proj1 X9_onChunkComplete_not_a_function);
    [reflexivity | discriminate | left; discriminate].
Defined.

(** ** No chunk is forgotten *)

Lemma emit_accounted c e s : accounted c s -> accounted c (emit e s).
Proof.
  unfold accounted. simpl. rewrite posted_app, given_up_chunks_app.
  rewrite !elem_of_app. tauto.
Qed.

Lemma callback_accounted c h cb params s :
  accounted c s -> accounted c (state_of (callback h cb params s)).
Proof. intros H. destruct cb; simpl; try done. by apply emit_accounted. Qed.

Lemma downloadChunk_accounted cfg c s :
  onChunkGiveUp cfg = HFunction ->
  accounted c s -> accounted c (state_of (downloadChunk cfg s)).
Proof.
  intros Hgu. pattern s, (downloadChunk cfg s).
  apply downloadChunk_induction; clear s.
  - done.
  - intros s _ _ H. by apply callback_accounted.
  - intros s q' _ Hq H. apply callback_accounted.
    destruct H as [H|H]; [left|by right]. simpl.
    rewrite Hq in H. by apply elem_of_cons in H as [?|H].
  - intros s d q' _ Hq _ [H|[H|H]]; unfold accounted; simpl;
      rewrite posted_app, given_up_chunks_app, !elem_of_app; simpl.
    + rewrite Hq in H. apply elem_of_cons in H as [[= ->]|H]; [|by left].
      right. left. right. by apply list_elem_of_singleton.
    + tauto.
    + tauto.
  - intros s d q' msg s1 _ _ _ Hcb. by rewrite Hgu in Hcb.
  - intros s d q' s1 _ Hq _ Hcb IH H. apply IH.
    rewrite Hgu in Hcb. simpl in Hcb. injection Hcb as <-.
    destruct H as [H|[H|H]]; unfold accounted; simpl;
      rewrite posted_app, given_up_chunks_app, !elem_of_app; simpl.
    + rewrite Hq in H. apply elem_of_cons in H as [[= ->]|H]; [|by left].
      right. right. right. by apply list_elem_of_singleton.
    + tauto.
    + tauto.
Qed.

Lemma step_response_accounted cfg c i r s out :
  onChunkGiveUp cfg = HFunction ->
  accounted c s ->
  step cfg (Response i r) s = Some out ->
  accounted c (state_of out).
Proof.
  intros Hgu H Hstep. destruct (step_response_inv _ _ _ _ _ Hstep) as [d Hi].
  rewrite (step_response cfg i r s d Hi) in Hstep. injection Hstep as <-.
  apply (and_then_preserves (accounted c)).
  - destruct r as [data|error]; unfold ajax_success, ajax_error; cbv zeta;
      apply callback_accounted; [done|].
    destruct H as [H|H]; [left|by right]. simpl. apply elem_of_app. by left.
  - intros s' Hs'. unfold ajax_complete. cbv zeta.
    apply (and_then_preserves (accounted c));
      [by apply callback_accounted|intros s2; by apply downloadChunk_accounted].
Qed.

(** X10: no supplied chunk is forgotten when [onChunkGiveUp] is a function.
    In every reachable state each of the supplied chunks is waiting in the
    queue, or has been sent at least once, or has been handed to
    [onChunkGiveUp]; so once the queue is empty, every supplied chunk has
    been sent or reported as given up. *)
Theorem X10_no_chunk_forgotten o cs s c :
  onChunkGiveUp (extend defaultOptions o) = HFunction ->
  verifySettings (extend defaultOptions o) = None ->
  settings_chunks (extend defaultOptions o) = Some cs ->
  reachable o s ->
  Some c ∈ cs ->
  Some c ∈ chunks s \/ c ∈ posted (trace s) \/ c ∈ given_up_chunks (trace s).
Proof.
  intros Hgu Hv Hcs Hs Hc. change (accounted c s).
  pose proof (reachable_supplied_not_fetching o cs) as Hnf.
  induction Hs as [|s inp out Hs IH Hstep].
  - unfold chunkatron. cbv zeta. rewrite Hv, Hcs. simpl.
    apply (times_preserves (accounted c));
      [intros s'; by apply downloadChunk_accounted|by left].
  - specialize (Hnf s Hcs Hs). destruct inp as [i r| data |].
    + by apply (step_response_accounted (extend defaultOptions o) c i r s).
    + unfold step in Hstep. by rewrite Hnf in Hstep.
    + unfold step in Hstep. by rewrite Hnf in Hstep.
Qed.

Lemma X10_witness :
  Some [7; 2] ∈ chunks (state_of (chunkatron pooled)) \/
  [7; 2] ∈ posted (trace (state_of (chunkatron pooled))) \/
  [7; 2] ∈ given_up_chunks (trace (state_of (chunkatron pooled))).
Proof.
  apply (X10_no_chunk_forgotten pooled [Some [7; 1]; Some [7; 2]]);
    [reflexivity | reflexivity | reflexivity | constructor |].
  apply elem_of_cons. right. apply elem_of_cons. by left.
Defined.

(** ** The payload of a success *)

Lemma ajax_complete_extends cfg s :
  exists new, trace (state_of (ajax_complete cfg s)) = trace s ++ new.
Proof.
  unfold ajax_complete. cbv zeta.
  set (s1 := set_concurrentDownloads (concurrentDownloads s - 1) s).
  destruct (callback_cases OnChunkComplete (onChunkComplete cfg) JUndefined s1)
    as [[_ E]|[[_ E]|[_ [msg E]]]]; rewrite E; unfold and_then.
  - destruct (downloadChunk_extends cfg s1) as [new Hnew].
    exists new. rewrite Hnew. reflexivity.
  - match goal with |- context [downloadChunk cfg ?s2] =>
      destruct (downloadChunk_extends cfg s2) as [new Hnew]
    end.
    rewrite Hnew. simpl. rewrite <- app_assoc. eauto.
  - exists []. simpl. by rewrite app_nil_r.
Qed.

(** X11: what [onChunkSuccess] gets.  When a request succeeds and
    [onChunkSuccess] is a function, the first thing the turn does is to call
    it, before the counter is lowered: with the payload if that is truthy,
    and without an argument if the payload is falsy (0, the empty string,
    false or null). *)
Theorem X11_success_payload cfg i data s out c :
  onChunkSuccess cfg = HFunction ->
  pending s !! i = Some c ->
  step cfg (Response i (Success data)) s = Some out ->
  exists rest,
    trace (state_of out)
    = trace s ++
      Fired OnChunkSuccess (if truthy data then Some data else None)
        {| seen_chunks := chunks s;
           seen_concurrentDownloads := concurrentDownloads s;
           seen_chunkFailures := chunkFailures s |} :: rest.
Proof.
  intros Hfn Hi Hstep. rewrite (step_response cfg i _ s c Hi) in Hstep.
  injection Hstep as <-. unfold ajax_success. rewrite Hfn. simpl.
  match goal with |- context [ajax_complete cfg ?s1] =>
    destruct (ajax_complete_extends cfg s1) as [new ->]
  end. simpl. rewrite <- app_assoc. eauto.
Qed.

Lemma X11_witness :
  exists rest,
    trace (state_of (default (Done initial)
                       (step (extend defaultOptions three_chunks)
                          (Response 0 (Success (JNum 0)))
                          (state_of (chunkatron three_chunks)))))
    = trace (state_of (chunkatron three_chunks)) ++
      Fired OnChunkSuccess None
        {| seen_chunks := [Some [3]]; seen_concurrentDownloads := 2;
           seen_chunkFailures := ∅ |} :: rest.
Proof.
  apply (X11_success_payload (extend defaultOptions three_chunks) 0%nat
           (JNum 0) (state_of (chunkatron three_chunks))
           (default (Done initial)
              (step (extend defaultOptions three_chunks)
                 (Response 0 (Success (JNum 0)))
                 (state_of (chunkatron three_chunks))))
           [1]);
    vm_compute; reflexivity.
Defined.

(** ** How often onFinished fires *)

Lemma callback_finished_count h cb params s :
  h <> OnFinished ->
  finished_count (state_of (callback h cb params s)) = finished_count s.
Proof.
  intros Hh. destruct cb; simpl; try done. unfold finished_count. simpl.
  rewrite count_snoc. simpl. by destruct h.
Qed.

(** A call of [downloadChunk] with a free slot, when it returns, has sent one
    request or fired [onFinished] once. *)
Lemma downloadChunk_sends_or_finishes cfg s :
  onChunkGiveUp cfg <> HOther ->
  onFinished cfg = HFunction ->
  concurrentDownloads s < concurrentDownloadsMax cfg ->
  finished_count (state_of (downloadChunk cfg s))
    + concurrentDownloads (state_of (downloadChunk cfg s))
  = finished_count s + concurrentDownloads s + 1.
Proof.
  intros Hgu Hfin. pattern s, (downloadChunk cfg s).
  apply downloadChunk_induction; clear s.
  - intros s Hle Hlt. lia.
  - intros s _ _ _. rewrite Hfin. unfold finished_count. simpl.
    rewrite count_snoc. simpl. lia.
  - intros s q' _ _ _. rewrite Hfin. unfold finished_count. simpl.
    rewrite count_snoc. simpl. lia.
  - intros s c q' _ _ _ _. unfold finished_count. simpl.
    rewrite count_snoc. simpl. lia.
  - intros s c q' msg s1 _ _ _ Hcb.
    destruct (callback_returns OnChunkGiveUp _ (JArr c) (set_chunks q' s) Hgu)
      as [s' Hs']. congruence.
  - intros s c q' s1 _ _ _ Hcb IH Hlt.
    pose proof (callback_finished_count OnChunkGiveUp (onChunkGiveUp cfg)
                  (JArr c) (set_chunks q' s)) as Hf.
    destruct (callback_fields OnChunkGiveUp (onChunkGiveUp cfg) (JArr c)
                (set_chunks q' s)) as (Hn & _).
    rewrite Hcb in Hf, Hn. simpl in Hf, Hn.
    rewrite IH by lia. rewrite Hf by done. unfold finished_count. simpl. lia.
Qed.

(** X12: how often [onFinished] fires.  With the chunks supplied, every hook
    a function or null, [onFinished] a function and a cap that is not
    negative, the number of times [onFinished] has fired and the counter of
    requests in flight add up to [concurrentDownloadsMax] in every reachable
    state.  So [onFinished] fires once for each slot: when nothing is in
    flight any more it has fired exactly [concurrentDownloadsMax] times,
    whatever the number of chunks and whichever requests failed. *)
Theorem X12_onFinished_fires_once_per_slot o cs s :
  hooks_typed (extend defaultOptions o) ->
  onFinished (extend defaultOptions o) = HFunction ->
  0 <= concurrentDownloadsMax (extend defaultOptions o) ->
  verifySettings (extend defaultOptions o) = None ->
  settings_chunks (extend defaultOptions o) = Some cs ->
  reachable o s ->
  finished_count s + concurrentDownloads s
    = concurrentDownloadsMax (extend defaultOptions o) /\
  (pending s = [] ->
   finished_count s = concurrentDownloadsMax (extend defaultOptions o)).
Proof.
  intros Hty Hfin Hcap Hv Hcs Hs.
  assert (finished_count s + concurrentDownloads s
          = concurrentDownloadsMax (extend defaultOptions o)) as Hsum.
  { pose proof (reachable_supplied_not_fetching o cs) as Hnf.
    destruct Hty as (Hok & Herr & Hgu & Hcomp & _).
    induction Hs as [|s inp out Hs IH Hstep].
    - unfold chunkatron. cbv zeta. rewrite Hv, Hcs. simpl.
      destruct (times_downloadChunk_fan_out (extend defaultOptions o)
                  (Z.to_nat (concurrentDownloadsMax (extend defaultOptions o)))
                  (set_chunks cs initial))
        as (_ & _ & Hn & _ & _ & _ & Hf);
        [done | simpl; lia | left; congruence |].
      simpl in Hn, Hf. unfold finished_count. rewrite Hn, (Hf Hfin).
      match goal with |- context [chunks_of (take ?n cs)] =>
        pose proof (chunks_of_length (take n cs)) as Hlen;
        rewrite length_take in Hlen
      end.
      simpl in Hcap. lia.
    - specialize (Hnf s Hcs Hs). destruct inp as [i r| data |];
        [|unfold step in Hstep; by rewrite Hnf in Hstep..].
      pose proof (reachable_inv o s Hs) as [Hb _].
      rewrite Z.max_r in Hb by done.
      destruct (step_response_inv _ _ _ _ _ Hstep) as [c Hi].
      rewrite (step_response _ i r s c Hi) in Hstep. injection Hstep as <-.
      assert (exists s2,
                match r with
                | Success data =>
                    ajax_success (extend defaultOptions o) data
                      (set_pending (delete i (pending s)) s)
                | Error error =>
                    ajax_error (extend defaultOptions o) c error
                      (set_pending (delete i (pending s)) s)
                end = Done s2 /\
                finished_count s2 = finished_count s /\
                concurrentDownloads s2 = concurrentDownloads s)
        as (s2 & -> & Hf2 & Hn2).
      { destruct r as [data|error]; unfold ajax_success, ajax_error; cbv zeta;
          match goal with |- context [callback ?h ?cb ?p ?s1] =>
            destruct (callback_returns h cb p s1) as [s2 Hs2]; [done|];
            pose proof (callback_fields h cb p s1) as (Hn & _);
            pose proof (callback_finished_count h cb p s1) as Hf;
            rewrite Hs2 in Hn, Hf |- *; simpl in Hn, Hf
          end; exists s2; (split; [done|]); rewrite Hn, Hf; done. }
      cbn [and_then state_of]. unfold ajax_complete. cbv zeta.
      match goal with |- context [callback ?h ?cb ?p ?s1] =>
        destruct (callback_returns h cb p s1) as [s3 Hs3]; [done|];
        pose proof (callback_fields h cb p s1) as (Hn & _);
        pose proof (callback_finished_count h cb p s1) as Hf;
        rewrite Hs3 in Hn, Hf |- *;
        cbn [state_of concurrentDownloads set_concurrentDownloads] in Hn, Hf
      end.
      cbn [and_then state_of].
      rewrite downloadChunk_sends_or_finishes; [|done|done|lia].
      rewrite Hn, Hf by done. unfold finished_count in *.
      cbn [trace set_concurrentDownloads]. lia. }
  split; [exact Hsum|]. intros Hp.
  destruct Hty as (Hok & Herr & _).
  pose proof (reachable_counts o s Hok Herr Hs) as Hn.
  rewrite Hp in Hn. simpl in Hn. lia.
Qed.

Lemma X12_witness :
  finished_count (state_of (chunkatron always_failing))
    + concurrentDownloads (state_of (chunkatron always_failing)) = 10.
Proof.
  apply (X12_onFinished_fires_once_per_slot always_failing [Some [5]]
           (state_of (chunkatron always_failing)));
    [repeat split; discriminate | reflexivity | simpl; lia | reflexivity
    | reflexivity | constructor].
Defined.

(** ** One answer, one call *)

Lemma callback_count h' h cb params s :
  count (is_fired h') (trace (state_of (callback h cb params s)))
  = (count (is_fired h') (trace s)
     + if hook_name_eqb h' h then
         match cb with HFunction => 1 | _ => 0 end
       else 0)%nat.
Proof.
  destruct cb; simpl; try (destruct (hook_name_eqb h' h); lia).
  rewrite count_snoc. simpl. destruct (hook_name_eqb h' h); lia.
Qed.

Lemma callback_answered h cb params s :
  answered (state_of (callback h cb params s)) = answered s.
Proof.
  unfold answered. rewrite callback_posted.
  by destruct (callback_fields h cb params s) as (_ & _ & _ & -> & _).
Qed.

(** [downloadChunk] calls no hook of an answer, and what it sends is in
    flight. *)
Lemma downloadChunk_answers cfg h s :
  answer_hook h = true ->
  count (is_fired h) (trace (state_of (downloadChunk cfg s)))
  = count (is_fired h) (trace s) /\
  answered (state_of (downloadChunk cfg s)) = answered s.
Proof.
  intros Hh.
  assert (forall h0 cb p s0,
            answer_hook h0 = false ->
            count (is_fired h) (trace (state_of (callback h0 cb p s0)))
            = count (is_fired h) (trace s0) /\
            answered (state_of (callback h0 cb p s0)) = answered s0) as Hquiet.
  { intros h0 cb p s0 Hh0. rewrite callback_count, callback_answered.
    split; [|done]. destruct h, h0; simpl in *; try done; lia. }
  pattern s, (downloadChunk cfg s). apply downloadChunk_induction; clear s.
  - done.
  - intros s _ _. by apply Hquiet.
  - intros s q' _ _.
    exact (Hquiet OnFinished (onFinished cfg) JUndefined (set_chunks q' s)
             eq_refl).
  - intros s c q' _ _ _. unfold answered. simpl.
    rewrite count_snoc, posted_app, !length_app. simpl. split; [done|lia].
  - intros s c q' msg s1 _ _ _ Hcb.
    pose proof (Hquiet OnChunkGiveUp (onChunkGiveUp cfg) (JArr c)
                  (set_chunks q' s) eq_refl) as H0.
    rewrite Hcb in H0. exact H0.
  - intros s c q' s1 _ _ _ Hcb [IH1 IH2].
    pose proof (Hquiet OnChunkGiveUp (onChunkGiveUp cfg) (JArr c)
                  (set_chunks q' s) eq_refl) as H0.
    rewrite Hcb in H0. destruct H0 as [H1 H2].
    split; [rewrite IH1; exact H1 | rewrite IH2; exact H2].
Qed.

Lemma start_answers cfg h cs s :
  answer_hook h = true ->
  count (is_fired h) (trace (state_of (start cfg cs s)))
  = count (is_fired h) (trace s) /\
  answered (state_of (start cfg cs s)) = answered s.
Proof.
  intros Hh. destruct cs as [cs|]; simpl.
  - apply (times_preserves
             (fun s' => count (is_fired h) (trace s')
                        = count (is_fired h) (trace s) /\
                        answered s' = answered s)); [|done].
    intros s' [H1 H2].
    destruct (downloadChunk_answers cfg h s' Hh) as [-> ->]. done.
  - by destruct (0 <? concurrentDownloadsMax cfg).
Qed.

Lemma step_response_answers cfg i r s out :
  step cfg (Response i r) s = Some out ->
  answered (state_of out) = answered s + 1 /\
  (onChunkSuccess cfg = HFunction ->
   count (is_fired OnChunkSuccess) (trace (state_of out))
   = (count (is_fired OnChunkSuccess) (trace s)
      + if is_success (Response i r) then 1 else 0)%nat) /\
  (onChunkError cfg = HFunction ->
   count (is_fired OnChunkError) (trace (state_of out))
   = (count (is_fired OnChunkError) (trace s)
      + if is_error (Response i r) then 1 else 0)%nat) /\
  (onChunkComplete cfg = HFunction ->
   onChunkSuccess cfg <> HOther -> onChunkError cfg <> HOther ->
   count (is_fired OnChunkComplete) (trace (state_of out))
   = S (count (is_fired OnChunkComplete) (trace s))).
Proof.
  intros Hstep. destruct (step_response_inv _ _ _ _ _ Hstep) as [c Hi].
  rewrite (step_response cfg i r s c Hi) in Hstep. injection Hstep as <-.
  assert (answered (set_pending (delete i (pending s)) s) = answered s + 1)
    as Hans.
  { unfold answered. simpl. rewrite length_delete by eauto.
    apply lookup_lt_Some in Hi. lia. }
  assert (forall h s1,
            answer_hook h = true ->
            count (is_fired h) (trace (state_of (ajax_complete cfg s1)))
            = (count (is_fired h) (trace s1)
               + if hook_name_eqb h OnChunkComplete then
                   match onChunkComplete cfg with HFunction => 1 | _ => 0 end
                 else 0)%nat /\
            answered (state_of (ajax_complete cfg s1)) = answered s1)
    as Hcomplete.
  { intros h s1 Hh. unfold ajax_complete. cbv zeta.
    match goal with |- context [callback ?h0 ?cb ?p ?s2] =>
      pose proof (callback_count h h0 cb p s2) as Hc;
      pose proof (callback_answered h0 cb p s2) as Ha;
      destruct (callback h0 cb p s2) as [s3|msg s3]; simpl in *
    end.
    - destruct (downloadChunk_answers cfg h s3 Hh) as [-> ->]. done.
    - destruct (onChunkComplete cfg); simpl in *; try done.
      all: split; [lia|done]. }
  set (first := match r with
                | Success data =>
                    ajax_success cfg data (set_pending (delete i (pending s)) s)
                | Error error =>
                    ajax_error cfg c error (set_pending (delete i (pending s)) s)
                end).
  assert (answered (state_of first) = answered s + 1 /\
          (forall h,
              count (is_fired h) (trace (state_of first))
              = (count (is_fired h) (trace s)
                 + match r with
                   | Success _ =>
                       if hook_name_eqb h OnChunkSuccess then
                         match onChunkSuccess cfg with HFunction => 1 | _ => 0 end
                       else 0
                   | Error _ =>
                       if hook_name_eqb h OnChunkError then
                         match onChunkError cfg with HFunction => 1 | _ => 0 end
                       else 0
                   end)%nat) /\
          ((exists s2, first = Done s2) \/
           match r with
           | Success _ => onChunkSuccess cfg = HOther
           | Error _ => onChunkError cfg = HOther
           end)) as (Ha & Hc & Hdone).
  { subst first. destruct r as [data|error]; unfold ajax_success, ajax_error;
      cbv zeta; rewrite callback_answered;
      (split; [exact Hans|]); (split; [intros h; by rewrite callback_count|]).
    - destruct (onChunkSuccess cfg); simpl; eauto.
    - destruct (onChunkError cfg); simpl; eauto. }
  destruct first as [s2|msg s2]; simpl in *.
  - split; [by rewrite (proj2 (Hcomplete OnChunkComplete s2 eq_refl))|].
    split; [|split].
    + intros Hfn. rewrite (proj1 (Hcomplete OnChunkSuccess s2 eq_refl)), Hc.
      simpl. rewrite Hfn. destruct r; simpl; lia.
    + intros Hfn. rewrite (proj1 (Hcomplete OnChunkError s2 eq_refl)), Hc.
      simpl. rewrite Hfn. destruct r; simpl; lia.
    + intros Hfn _ _. rewrite (proj1 (Hcomplete OnChunkComplete s2 eq_refl)), Hc.
      simpl. rewrite Hfn. destruct r; simpl; lia.
  - split; [done|]. split; [|split].
    + intros Hfn. rewrite Hc. destruct r; simpl; [rewrite Hfn|]; lia.
    + intros Hfn. rewrite Hc. destruct r; simpl; [|rewrite Hfn]; lia.
    + intros _ Hok Herr. destruct Hdone as [[s3 ?]|Hbad]; [done|].
      by destruct r.
Qed.

(** X13: one answer, one call.  In a run of the event loop from the plugin
    started on supplied chunks, the requests that were sent are those that
    were answered and those still in flight; a function [onChunkSuccess] has
    been called once for each success and a function [onChunkError] once for
    each error; and a function [onChunkComplete] has been called once for
    each answer, provided [onChunkSuccess] and [onChunkError] are functions
    or null. *)
Theorem X13_one_answer_one_call o cs inps s :
  settings_chunks (extend defaultOptions o) = Some cs ->
  run (extend defaultOptions o) inps (state_of (chunkatron o)) = Some s ->
  length (posted (trace s)) = (length inps + length (pending s))%nat /\
  (onChunkSuccess (extend defaultOptions o) = HFunction ->
   count (is_fired OnChunkSuccess) (trace s)
   = length (List.filter is_success inps)) /\
  (onChunkError (extend defaultOptions o) = HFunction ->
   count (is_fired OnChunkError) (trace s)
   = length (List.filter is_error inps)) /\
  (onChunkComplete (extend defaultOptions o) = HFunction ->
   onChunkSuccess (extend defaultOptions o) <> HOther ->
   onChunkError (extend defaultOptions o) <> HOther ->
   count (is_fired OnChunkComplete) (trace s) = length inps).
Proof.
  intros Hcs Hrun.
  assert (fetching (state_of (chunkatron o)) = false) as Hft.
  { apply (reachable_supplied_not_fetching o cs _ Hcs). constructor. }
  assert (answered (state_of (chunkatron o)) = 0 /\
          forall h, answer_hook h = true ->
                    count (is_fired h) (trace (state_of (chunkatron o))) = 0%nat)
    as [Ha0 Hc0].
  { destruct (chunkatron_supplied o cs Hcs) as [[msg ->]| ->]; [done|].
    split; [|intros h Hh];
      by destruct (start_answers (extend defaultOptions o) OnChunkComplete
                     (Some cs) initial eq_refl) as [_ ->]
      || by destruct (start_answers (extend defaultOptions o) h
                        (Some cs) initial Hh) as [-> _]. }
  assert (answered s = answered (state_of (chunkatron o)) + Z.of_nat (length inps)
          /\ (onChunkSuccess (extend defaultOptions o) = HFunction ->
              count (is_fired OnChunkSuccess) (trace s)
              = (count (is_fired OnChunkSuccess)
                   (trace (state_of (chunkatron o)))
                 + length (List.filter is_success inps))%nat)
          /\ (onChunkError (extend defaultOptions o) = HFunction ->
              count (is_fired OnChunkError) (trace s)
              = (count (is_fired OnChunkError)
                   (trace (state_of (chunkatron o)))
                 + length (List.filter is_error inps))%nat)
          /\ (onChunkComplete (extend defaultOptions o) = HFunction ->
              onChunkSuccess (extend defaultOptions o) <> HOther ->
              onChunkError (extend defaultOptions o) <> HOther ->
              count (is_fired OnChunkComplete) (trace s)
              = (count (is_fired OnChunkComplete)
                   (trace (state_of (chunkatron o)))
                 + length inps)%nat)) as (Ha & Hsu & Her & Hco).
  { clear Ha0 Hc0. revert Hft Hrun. generalize (state_of (chunkatron o)).
    induction inps as [|inp inps IH]; intros s0 Hft Hrun; simpl in Hrun.
    - injection Hrun as <-. simpl. repeat split; intros; lia.
    - destruct (step (extend defaultOptions o) inp s0) as [out|] eqn:Hstep;
        [|done].
      destruct inp as [i r| data |];
        [|unfold step in Hstep; by rewrite Hft in Hstep..].
      assert (fetching (state_of out) = false) as Hft'.
      { by apply (step_settled (fun _ => True) (fun _ _ _ _ => I)
                    (extend defaultOptions o) (Response i r) s0 out). }
      destruct (IH _ Hft' Hrun) as (Ha & Hsu & Her & Hco).
      destruct (step_response_answers _ i r s0 out Hstep)
        as (Ha1 & Hsu1 & Her1 & Hco1).
      split; [simpl length; lia|]. split; [|split].
      + intros H. rewrite (Hsu H), (Hsu1 H). simpl.
        destruct r; simpl; lia.
      + intros H. rewrite (Her H), (Her1 H). simpl.
        destruct r; simpl; lia.
      + intros H1 H2 H3. rewrite (Hco H1 H2 H3), (Hco1 H1 H2 H3).
        simpl length. lia. }
  split; [unfold answered in *; lia|]. split; [|split].
  - intros H. rewrite (Hsu H), (Hc0 OnChunkSuccess eq_refl). done.
  - intros H. rewrite (Her H), (Hc0 OnChunkError eq_refl). done.
  - intros H1 H2 H3. rewrite (Hco H1 H2 H3), (Hc0 OnChunkComplete eq_refl).
    done.
Qed.

Lemma X13_witness :
  length (posted (trace (default initial
            (run (extend defaultOptions three_chunks)
               [Response 1 (Success JNull); Response 0 (Error JNull)]
               (state_of (chunkatron three_chunks))))))
  = (2 + length (pending (default initial
            (run (extend defaultOptions three_chunks)
               [Response 1 (Success JNull); Response 0 (Error JNull)]
               (state_of (chunkatron three_chunks))))))%nat.
Proof.
  apply (X13_one_answer_one_call three_chunks [Some [1]; Some [2]; Some [3]]
           [Response 1 (Success JNull); Response 0 (Error JNull)]);
    [reflexivity | vm_compute; reflexivity].
Defined.

(** ** onFinished and the queue *)

Lemma callback_finished_view h cb params s :
  (h = OnFinished -> chunks s = []) ->
  Forall finished_saw_empty_queue (trace s) ->
  Forall finished_saw_empty_queue (trace (state_of (callback h cb params s))).
Proof.
  intros Hh Ht. destruct cb; simpl; [done| |done].
  apply Forall_app. split; [done|]. constructor; [|constructor].
  destruct h; simpl; auto.
Qed.

Lemma downloadChunk_finished_view cfg s :
  null_free (chunks s) ->
  Forall finished_saw_empty_queue (trace s) ->
  Forall finished_saw_empty_queue (trace (state_of (downloadChunk cfg s))).
Proof.
  pattern s, (downloadChunk cfg s). apply downloadChunk_induction; clear s.
  - done.
  - intros s _ Hq _ Ht. by apply callback_finished_view.
  - intros s q' _ Hq H. rewrite Hq in H.
    by apply Forall_cons in H as [[? [=]] _].
  - intros s c q' _ _ _ _ Ht. simpl. apply Forall_app. split; [done|].
    by repeat constructor.
  - intros s c q' msg s1 _ _ _ Hcb _ Ht.
    change s1 with (state_of (Thrown msg s1)). rewrite <- Hcb.
    by apply callback_finished_view.
  - intros s c q' s1 _ Hq _ Hcb IH Hnf Ht.
    destruct (callback_fields OnChunkGiveUp (onChunkGiveUp cfg) (JArr c)
                (set_chunks q' s)) as (_ & _ & Hc & _).
    rewrite Hcb in Hc. simpl in Hc. apply IH.
    + rewrite Hc. rewrite Hq in Hnf. by apply Forall_cons in Hnf as [_ ?].
    + change s1 with (state_of (Done s1)). rewrite <- Hcb.
      by apply callback_finished_view.
Qed.

(** A call of [downloadChunk] that fires [onFinished], on a queue without a
    null entry, leaves the queue empty. *)
Lemma downloadChunk_finished cfg s :
  null_free (chunks s) ->
  count (is_fired OnFinished) (trace (state_of (downloadChunk cfg s)))
    <> count (is_fired OnFinished) (trace s) ->
  chunks (state_of (downloadChunk cfg s)) = [].
Proof.
  pattern s, (downloadChunk cfg s). apply downloadChunk_induction; clear s.
  - done.
  - intros s _ Hq _ _.
    by destruct (callback_fields OnFinished (onFinished cfg) JUndefined s)
      as (_ & _ & -> & _).
  - intros s q' _ Hq H. rewrite Hq in H.
    by apply Forall_cons in H as [[? [=]] _].
  - intros s c q' _ _ _ _. simpl. rewrite count_snoc. simpl. done.
  - intros s c q' msg s1 _ _ _ Hcb.
    destruct (onChunkGiveUp cfg); simplify_eq/=. done.
  - intros s c q' s1 _ Hq _ Hcb IH Hnf Hne.
    destruct (callback_fields OnChunkGiveUp (onChunkGiveUp cfg) (JArr c)
                (set_chunks q' s)) as (_ & _ & Hc & _).
    rewrite Hcb in Hc. simpl in Hc. apply IH.
    + rewrite Hc. rewrite Hq in Hnf. by apply Forall_cons in Hnf as [_ ?].
    + assert (count (is_fired OnFinished) (trace s1)
              = count (is_fired OnFinished) (trace s)) as ->; [|done].
      pose proof (callback_count OnFinished OnChunkGiveUp (onChunkGiveUp cfg)
                    (JArr c) (set_chunks q' s)) as Hk.
      rewrite Hcb in Hk. simpl in Hk. lia.
Qed.

Lemma start_finished_view cfg cs s :
  null_free cs ->
  Forall finished_saw_empty_queue (trace s) ->
  Forall finished_saw_empty_queue (trace (state_of (start cfg (Some cs) s))).
Proof.
  intros Hnf Ht. simpl.
  apply (times_preserves
           (fun s' => null_free (chunks s') /\
                      Forall finished_saw_empty_queue (trace s')));
    [|done].
  intros s' [H1 H2]. split;
    [by apply downloadChunk_null_free|by apply downloadChunk_finished_view].
Qed.

Lemma step_finished_view cfg inp s out :
  loads_no_null inp ->
  null_free (chunks s) ->
  Forall finished_saw_empty_queue (trace s) ->
  step cfg inp s = Some out ->
  Forall finished_saw_empty_queue (trace (state_of out)).
Proof.
  intros Hinp Hnf Ht Hstep. destruct inp as [i r| data |].
  - destruct (step_response_inv _ _ _ _ _ Hstep) as [c Hi].
    rewrite (step_response cfg i r s c Hi) in Hstep. injection Hstep as <-.
    set (Q := fun s' : state =>
                null_free (chunks s') /\
                Forall finished_saw_empty_queue (trace s')).
    assert (forall h cb p s0,
              h <> OnFinished -> Q s0 -> Q (state_of (callback h cb p s0)))
      as Hcb.
    { intros h cb p s0 Hh [H1 H2]. split.
      - by destruct (callback_fields h cb p s0) as (_ & _ & -> & _).
      - by apply callback_finished_view. }
    apply (and_then_inv Q); [|by intros s' [_ ?]|].
    + destruct r as [data|error]; unfold ajax_success, ajax_error; cbv zeta;
        (apply Hcb; [done|]); split; simpl; try done.
      apply Forall_app. split; [done|]. by repeat constructor.
    + intros s' Hs'. unfold ajax_complete. cbv zeta.
      apply (and_then_inv Q); [by apply Hcb|by intros s2 [_ ?]|].
      intros s2 [H1 H2]. by apply downloadChunk_finished_view.
  - unfold step in Hstep. destruct (fetching s); [|done].
    injection Hstep as <-.
    by apply (start_finished_view cfg data (set_fetching false s)).
  - unfold step in Hstep. destruct (fetching s); [|done].
    by injection Hstep as <-.
Qed.

(** X14: when no entry of the chunk list is null, [onFinished] fires only
    on an empty queue.  For a chunk list, supplied or loaded, without a null
    entry: the queue never holds a null entry, and in every state of a run
    every call of [onFinished] in the trace saw an empty queue; and a call of
    [downloadChunk] that fires [onFinished], on a queue without a null entry,
    returns with the queue empty. *)
Theorem X14_onFinished_on_empty_queue :
  (forall o inps s,
      (forall cs, settings_chunks (extend defaultOptions o) = Some cs ->
                  null_free cs) ->
      Forall loads_no_null inps ->
      run (extend defaultOptions o) inps (state_of (chunkatron o)) = Some s ->
      null_free (chunks s) /\
      Forall finished_saw_empty_queue (trace s)) /\
  (forall cfg s0,
      null_free (chunks s0) ->
      count (is_fired OnFinished) (trace (state_of (downloadChunk cfg s0)))
        <> count (is_fired OnFinished) (trace s0) ->
      chunks (state_of (downloadChunk cfg s0)) = []).
Proof.
  split; [|apply downloadChunk_finished].
  intros o inps s Hcs Hinps Hrun.
  apply (run_invariant o
           (fun s' => null_free (chunks s') /\
                      Forall finished_saw_empty_queue (trace s'))
           inps (state_of (chunkatron o))); [|done|constructor| |done].
  - intros s0 inp out _ Hinp [H1 H2] Hstep. split.
    + by apply (step_null_free (extend defaultOptions o) inp s0).
    + by apply (step_finished_view (extend defaultOptions o) inp s0).
  - split; [by apply chunkatron_null_free|].
    unfold chunkatron. cbv zeta. destruct (verifySettings _); [constructor|].
    destruct (settings_chunks _) as [cs|] eqn:Hsc.
    + apply start_finished_view; [by apply Hcs|constructor].
    + destruct (chunksUrl _); [by repeat constructor|]. unfold start.
      destruct (0 <? concurrentDownloadsMax (extend defaultOptions o));
        constructor.
Qed.

Lemma X14_witness :
  Forall finished_saw_empty_queue
    (trace (state_of (chunkatron always_failing))) /\
  count (is_fired OnFinished)
    (trace (state_of (chunkatron always_failing))) = 9%nat /\
  pending (state_of (chunkatron always_failing)) = [[5]].
Proof.
  split; [|split; reflexivity].
  exact (proj2 (proj1 X14_onFinished_on_empty_queue always_failing []
                  (state_of (chunkatron always_failing))
                  ltac:(intros cs [= <-]; repeat constructor; eauto)
                  ltac:(constructor)
                  eq_refl)).
Defined.
